(** * thermomix-scraper: crawl state, discovery and download orchestration

    A shallow embedding of the state tracker ([state.py], [models.py]), the
    prefix-subdivision discovery ([algolia.py]) and the orchestrator
    ([scraper.py]), with the properties of the design document proved or
    refuted on it. *)

From Stdlib Require Import ZArith NArith Ascii String Floats.SpecFloat.
From stdpp Require Import gmap list sorting.

#[local] Set Warnings "-register-all,-clear-no-such-hyp".
Local Open Scope Z_scope.

(** ** Python values *)

(** A Python [str] is a sequence of Unicode code points; [len], indexing and
    comparison work on code points, so a string is a list of them. *)
Abbreviation char := N (only parsing).
Abbreviation str := (list N) (only parsing).

Module Py.

(** An ASCII literal of this file as a Python string. *)
Definition lit (s : string) : str :=
  List.map N_of_ascii (list_ascii_of_string s).

#[global] Arguments lit : simpl never.

(** [str.isspace] on one code point: the characters [str.strip()] removes. *)
Definition isspace (c : char) : bool :=
  ((9 <=? c) && (c <=? 13) || (28 <=? c) && (c <=? 32)
   || (c =? 133) || (c =? 160) || (c =? 5760)
   || (8192 <=? c) && (c <=? 8202)
   || (c =? 8232) || (c =? 8233) || (c =? 8239) || (c =? 8287)
   || (c =? 12288))%N.

Fixpoint lstrip_by (p : char -> bool) (s : str) : str :=
  match s with
  | c :: s' => if p c then lstrip_by p s' else s
  | [] => []
  end.

Definition rstrip_by (p : char -> bool) (s : str) : str :=
  rev (lstrip_by p (rev s)).

(** [s.strip()] *)
Definition strip (s : str) : str := rstrip_by isspace (lstrip_by isspace s).

(** [s.lstrip(chars)] *)
Definition lstrip (chars : str) (s : str) : str :=
  lstrip_by (fun c => bool_decide (c ∈ chars)) s.

(** [s.startswith(p)] *)
Fixpoint startswith (p s : str) : bool :=
  match p, s with
  | [], _ => true
  | a :: p', b :: s' => (a =? b)%N && startswith p' s'
  | _ :: _, [] => false
  end.

(** [s.endswith(p)] *)
Definition endswith (p s : str) : bool := startswith (rev p) (rev s).

Lemma startswith_cons a p b s :
  startswith (a :: p) (b :: s) = (a =? b)%N && startswith p s.
Proof. reflexivity. Qed.


#[global] Arguments startswith : simpl never.
#[global] Arguments endswith : simpl never.

(** What [json.load] returns: [None], [bool], [int], [float], [str], [list]
    and [dict]. A [dict] is kept as its items in insertion order. *)
Inductive value : Type :=
  | VNone
  | VBool (b : bool)
  | VInt (z : Z)
  | VFloat (f : spec_float)
  | VStr (s : str)
  | VList (l : list value)
  | VDict (items : list (str * value)).

(** [bool(v)] *)
Definition truthy (v : value) : bool :=
  match v with
  | VNone => false
  | VBool b => b
  | VInt z => negb (z =? 0)
  | VFloat (S754_zero _) => false
  | VFloat _ => true
  | VStr s => negb (bool_decide (s = []))
  | VList l => match l with [] => false | _ => true end
  | VDict d => match d with [] => false | _ => true end
  end.

(** [a or b] *)
Definition or_ (a b : value) : value := if truthy a then a else b.

(** Lookup in the items of a [dict]: a key bound twice in a JSON document
    keeps its last value. *)
Fixpoint items_get (k : str) (items : list (str * value)) : option value :=
  match items with
  | [] => None
  | (k', v) :: rest =>
      match items_get k rest with
      | Some v' => Some v'
      | None => if bool_decide (k' = k) then Some v else None
      end
  end.

(** [data.get(k, default)]; [AttributeError] ([None] here) when [data] is not
    a [dict]. *)
Definition get (data : value) (k : str) (dflt : value) : option value :=
  match data with
  | VDict items => Some (default dflt (items_get k items))
  | _ => None
  end.

End Py.

(** ** Library functions the repository calls

    The standard library's [datetime] type with its ISO-8601 printer and
    parser, [str.isdigit], and the formatting of a non-string value inside an
    f-string are not code of the repository: they are parameters. *)
Class PyLib := {
  datetime : Type;
  (** [d.isoformat()] *)
  isoformat : datetime -> str;
  (** [datetime.fromisoformat(s)]; [None] stands for [ValueError]. *)
  fromisoformat : str -> option datetime;
  (** [c.isdigit()] *)
  isdigit : char -> bool;
  (** [f"{v}"] for a [v] that is not a [str]. *)
  format_other : Py.value -> str;
}.

(** [f"{v}"] *)
Definition fstring `{PyLib} (v : Py.value) : str :=
  match v with
  | Py.VStr s => s
  | _ => format_other v
  end.

(** ** models.py *)

Module Recipe.
Import Py.

Record t := mk {
  id : value;
  title : value;
  source_url : value;
  language : value;
  rating_score : value;
  rating_count : value;
  tm_versions : value;
  ingredients : value;
  steps : value;
  tags : value;
  nutritions : value;
}.

Definition to_dict (r : t) : value :=
  VDict [ (lit "id", id r);
          (lit "source_url", source_url r);
          (lit "language", language r);
          (lit "title", title r);
          (lit "rating_count", rating_count r);
          (lit "rating_score", rating_score r);
          (lit "tm_versions", tm_versions r);
          (lit "ingredients", ingredients r);
          (lit "nutritions", nutritions r);
          (lit "steps", steps r);
          (lit "tags", tags r) ].

(** [Recipe.from_dict(data)]; [None] when it raises, which it does exactly when
    [data] has no [get]. The dataclass does not check the types of its fields,
    so each field holds whatever the document has. *)
Definition from_dict (data : value) : option t :=
  i ← get data (lit "id") (VStr []);
  ti ← get data (lit "title") (VStr []);
  su ← get data (lit "source_url") VNone;
  la ← get data (lit "language") VNone;
  rs ← get data (lit "rating_score") VNone;
  rc ← get data (lit "rating_count") VNone;
  tv ← get data (lit "tm_versions") VNone;
  tv' ← get data (lit "tm-versions") VNone;
  ing ← get data (lit "ingredients") VNone;
  st ← get data (lit "steps") VNone;
  ta ← get data (lit "tags") VNone;
  nu ← get data (lit "nutritions") VNone;
  Some {| id := i; title := ti; source_url := su; language := la;
          rating_score := rs; rating_count := rc;
          tm_versions := or_ (or_ tv tv') (VList []);
          ingredients := or_ ing (VList []);
          steps := or_ st (VList []);
          tags := or_ ta (VList []);
          nutritions := or_ nu (VDict []) |}.

(** [bool(self.ingredients or self.steps)] *)
Definition is_complete (r : t) : bool := truthy (or_ (ingredients r) (steps r)).

End Recipe.

(** The order of [str]: lexicographic on code points. *)
Fixpoint str_leb (a b : str) : bool :=
  match a, b with
  | [], _ => true
  | _ :: _, [] => false
  | x :: a', y :: b' => (x <? y)%N || (x =? y)%N && str_leb a' b'
  end.

Definition str_le (a b : str) : Prop := str_leb a b = true.

#[global] Instance str_le_dec (a b : str) : Decision (str_le a b).
Proof. unfold str_le. apply _. Defined.

(** [sorted(s)] of a set of strings. *)
Definition sorted (s : gset str) : list str := merge_sort str_le (elements s).

Module ScrapeState.
Import Py.
Section WithLib.
Context `{PyLib}.

(** [last_updated] is declared a [datetime]; [from_dict] can leave a raw
    document value there. *)
Inductive stamp :=
  | Stamp (d : datetime)
  | RawStamp (v : value).

Record t := mk {
  discovered : gset str;
  pending : gset str;
  completed : gset str;
  failed : gset str;
  last_updated : stamp;
}.

(** [ScrapeState()] with the clock reading [now]. *)
Definition empty (now : datetime) : t :=
  mk ∅ ∅ ∅ ∅ (Stamp now).

Definition str_list (l : list str) : value := VList (VStr <$> l).

(** [to_dict]; [None] when [last_updated] has no [isoformat]. *)
Definition to_dict (s : t) : option value :=
  match last_updated s with
  | Stamp d =>
      Some (VDict [ (lit "discovered", str_list (sorted (discovered s)));
                    (lit "pending", str_list (sorted (pending s)));
                    (lit "completed", str_list (sorted (completed s)));
                    (lit "failed", str_list (sorted (failed s)));
                    (lit "last_updated", VStr (isoformat d)) ])
  | RawStamp _ => None
  end.

Definition as_str (v : value) : option str :=
  match v with VStr s => Some s | _ => None end.

(** [set(v)] as a [set[str]]: the members of a list, the characters of a
    string, the keys of a dict. [None] when Python raises [TypeError] (a
    number, an unhashable member) and when a member is not a string, which
    would leave the declared type. *)
Definition set_of (v : value) : option (gset str) :=
  match v with
  | VList l => list_to_set <$> mapM as_str l
  | VStr s => Some (list_to_set ((fun c => [c]) <$> s))
  | VDict items => Some (list_to_set (fst <$> items))
  | _ => None
  end.

(** [from_dict(data)] with the clock reading [now]. *)
Definition from_dict (now : datetime) (data : value) : option t :=
  lu ← get data (lit "last_updated") VNone;
  let last :=
    match lu with
    | VStr s => Stamp (default now (fromisoformat s))
    | VNone => Stamp now
    | v => RawStamp v
    end in
  d ← get data (lit "discovered") VNone ≫= fun v => set_of (or_ v (VList []));
  p ← get data (lit "pending") VNone ≫= fun v => set_of (or_ v (VList []));
  c ← get data (lit "completed") VNone ≫= fun v => set_of (or_ v (VList []));
  f ← get data (lit "failed") VNone ≫= fun v => set_of (or_ v (VList []));
  Some (mk d p c f last).

End WithLib.
End ScrapeState.

(** ** config.py *)

Inductive RunMode := SKIP_EXISTING | UPDATE | REDOWNLOAD_ALL | CONTINUE.

#[global] Instance RunMode_eq_dec : EqDecision RunMode.
Proof. solve_decision. Defined.

(** ** The files the program reads and writes *)

(** A file of the output directory, by its name, or a file somewhere else, by
    its path. Identifiers are taken free of path separators, so
    [output_dir / f"{recipe_id}.json"] is a file of the output directory. *)
Inductive path :=
  | OutputFile (name : str)
  | OtherFile (p : str).

#[global] Instance path_eq_dec : EqDecision path.
Proof. solve_decision. Defined.

#[global] Instance path_countable : Countable path.
Proof.
  refine (inj_countable'
    (fun p => match p with OutputFile n => inl n | OtherFile q => inr q end)
    (fun s => match s with inl n => OutputFile n | inr q => OtherFile q end) _).
  by intros [].
Defined.

(** What reading a file and [json.load] give: a document, or an exception
    (unreadable, a directory, not JSON). *)
Inductive file :=
  | FileJson (v : Py.value)
  | FileGarbage.

Record Disk := mkDisk {
  (** [output_dir.is_dir()] *)
  output_is_dir : bool;
  files : gmap path file;
}.

Record Config := mkConfig {
  state_file : path;
  mode : RunMode;
  recipe_ids : list str;
  max_retries : Z;
  save_interval : Z;
}.

(** [output_dir / ".scraper_state.json"], the default of [state_file]. *)
Definition default_state_file : path := OutputFile (Py.lit ".scraper_state.json").

(** ** state.py *)

Module StateManager.
Import Py.
Section WithLib.
Context `{PyLib}.

Abbreviation ScrapeState := ScrapeState.t.
Abbreviation discovered := ScrapeState.discovered.
Abbreviation pending := ScrapeState.pending.
Abbreviation completed := ScrapeState.completed.
Abbreviation failed := ScrapeState.failed.
Abbreviation last_updated := ScrapeState.last_updated.

(** [_load_state]: the state the manager holds afterwards. [config.state_file]
    is never [None] once [Config.__post_init__] has run. *)
Definition _load_state (cfg : Config) (now : datetime) (d : Disk)
    (st : ScrapeState) : ScrapeState :=
  match files d !! state_file cfg with
  | None => st
  | Some FileGarbage => st
  | Some (FileJson data) => default st (ScrapeState.from_dict now data)
  end.

(** [fpath.stem]: the name without its last suffix. *)
Fixpoint cut_at_dot (r : str) (acc : str) : option (str * str) :=
  match r with
  | [] => None
  | c :: r' => if (c =? 46)%N then Some (acc, r') else cut_at_dot r' (c :: acc)
  end.

Definition stem (name : str) : str :=
  match cut_at_dot (rev name) [] with
  | Some (_ :: _, (_ :: _) as b) => rev b
  | _ => name
  end.

(** [output_dir.glob("*.json")]: the files of the output directory whose name
    ends in [.json], in the order the directory lists them. *)
Definition glob_json (d : Disk) : list (str * file) :=
  omap (fun e => match e with
                 | (OutputFile name, f) =>
                     if endswith (lit ".json") name then Some (name, f) else None
                 | _ => None
                 end)
       (map_to_list (files d)).

Definition scan_corrupt (recipe_id : str) (st : ScrapeState) : ScrapeState :=
  ScrapeState.mk ({[recipe_id]} ∪ discovered st) (pending st)
                 ({[recipe_id]} ∪ completed st) (failed st) (last_updated st).

(** The body of the loop of [_scan_existing_recipes]. *)
Definition scan_file (st : ScrapeState) (e : str * file) : ScrapeState :=
  let (name, f) := e in
  if startswith (lit ".") name then st
  else
    let recipe_id := stem name in
    match f with
    | FileGarbage => scan_corrupt recipe_id st
    | FileJson data =>
        match Recipe.from_dict data with
        | None => scan_corrupt recipe_id st
        | Some recipe =>
            if Recipe.is_complete recipe then
              ScrapeState.mk ({[recipe_id]} ∪ discovered st)
                             (pending st ∖ {[recipe_id]})
                             ({[recipe_id]} ∪ completed st)
                             (failed st) (last_updated st)
            else
              ScrapeState.mk ({[recipe_id]} ∪ discovered st)
                             ({[recipe_id]} ∪ pending st)
                             (completed st) (failed st) (last_updated st)
        end
    end.

Definition _scan_existing_recipes (d : Disk) (st : ScrapeState) : ScrapeState :=
  if output_is_dir d then foldl scan_file st (glob_json d) else st.

(** [StateManager(config)]: the state after [__init__]. *)
Definition init (cfg : Config) (now : datetime) (d : Disk) : ScrapeState :=
  _scan_existing_recipes d (_load_state cfg now d (ScrapeState.empty now)).

(** [save_state]: the disk afterwards. A state that [to_dict] cannot
    serialise leaves the disk as it is (the exception is logged); creating
    the directory and writing the file are taken to succeed. *)
Definition save_state (cfg : Config) (st : ScrapeState) (d : Disk) : Disk :=
  match ScrapeState.to_dict st with
  | Some doc =>
      mkDisk (match state_file cfg with
              | OutputFile _ => true
              | OtherFile _ => output_is_dir d
              end)
             (<[state_file cfg := FileJson doc]> (files d))
  | None => d
  end.


Definition recipe_path (recipe_id : str) : path :=
  OutputFile (recipe_id ++ lit ".json").

Definition recipe_exists (d : Disk) (recipe_id : str) : bool :=
  bool_decide (is_Some (files d !! recipe_path recipe_id)).

(** [save_recipe], when it does not raise: the directory is made and the
    record written. *)
Definition save_recipe (recipe : Recipe.t) (d : Disk) : Disk :=
  mkDisk true
         (<[recipe_path (fstring (Recipe.id recipe)) := FileJson (Recipe.to_dict recipe)]>
            (files d)).

Definition load_recipe (d : Disk) (recipe_id : str) : option Recipe.t :=
  match files d !! recipe_path recipe_id with
  | Some (FileJson data) => Recipe.from_dict data
  | _ => None
  end.

Definition should_download (cfg : Config) (d : Disk) (st : ScrapeState)
    (recipe_id : str) : bool :=
  match mode cfg with
  | REDOWNLOAD_ALL => true
  | UPDATE => true
  | CONTINUE =>
      bool_decide (recipe_id ∈ pending st) || bool_decide (recipe_id ∈ failed st)
  | SKIP_EXISTING =>
      if bool_decide (recipe_id ∈ completed st) then false
      else negb (recipe_exists d recipe_id)
  end.

Definition mark_discovered (recipe_id : str) (st : ScrapeState) : ScrapeState :=
  ScrapeState.mk ({[recipe_id]} ∪ discovered st) (pending st) (completed st)
                 (failed st) (last_updated st).

Definition mark_pending (recipe_id : str) (st : ScrapeState) : ScrapeState :=
  ScrapeState.mk (discovered st) ({[recipe_id]} ∪ pending st) (completed st)
                 (failed st) (last_updated st).

Definition mark_completed (recipe_id : str) (st : ScrapeState) : ScrapeState :=
  ScrapeState.mk (discovered st) (pending st ∖ {[recipe_id]})
                 ({[recipe_id]} ∪ completed st) (failed st ∖ {[recipe_id]})
                 (last_updated st).

Definition mark_failed (recipe_id : str) (st : ScrapeState) : ScrapeState :=
  ScrapeState.mk (discovered st) (pending st ∖ {[recipe_id]}) (completed st)
                 ({[recipe_id]} ∪ failed st) (last_updated st).

End WithLib.
End StateManager.

(** ** algolia.py *)

Module AlgoliaClient.
Import Py.

(** "ABC...XYZ", A-umlaut, O-umlaut, U-umlaut, "abc...xyz", a-umlaut,
    o-umlaut, u-umlaut, "0123456789". *)
Definition SEARCH_CHARS : list char :=
  lit "ABCDEFGHIJKLMNOPQRSTUVWXYZ" ++ [196; 214; 220]%N
  ++ lit "abcdefghijklmnopqrstuvwxyz" ++ [228; 246; 252]%N
  ++ lit "0123456789".
Definition MAX_DEPTH : Z := 3.
Definition HITS_PER_PAGE : Z := 1000.

(** What [_query_prefix] returns for the [n]-th query of the traversal, on
    the prefix it is asked: the identifiers of the hits and [nbHits]. A failed
    request is the answer [([], 0)]. *)
Definition oracle := nat -> str -> list str * Z.

(** The local variables of [discover_all], with the identifiers yielded so
    far and the prefixes passed to [_query_prefix] so far, oldest first. *)
Record gen := mkGen {
  prefix_queue : list str;
  seen_ids : gset str;
  yielded : list str;
  queried : list str;
}.

Definition start : gen :=
  mkGen ((fun c => [c]) <$> SEARCH_CHARS) ∅ [] [].

(** [for rid in ids: if rid not in seen_ids: seen_ids.add(rid); yield rid] *)
Definition emit (acc : gset str * list str) (rid : str) : gset str * list str :=
  if bool_decide (rid ∈ acc.1) then acc else ({[rid]} ∪ acc.1, acc.2 ++ [rid]).

(** The subdivision test of one answer. *)
Definition under_covered (prefix : str) (ids : list str) (total_hits : Z) : bool :=
  (HITS_PER_PAGE <=? Z.of_nat (length ids)) && (HITS_PER_PAGE <? total_hits)
  && (Z.of_nat (length prefix) <? MAX_DEPTH).

Definition extensions (prefix : str) : list str :=
  (fun c => prefix ++ [c]) <$> SEARCH_CHARS.

(** One turn of [while prefix_queue], for the prefix at the head. *)
Definition turn (query : oracle) (prefix : str) (rest : list str) (g : gen) : gen :=
  let '(ids, total_hits) := query (length (queried g)) prefix in
  let '(seen, out) := foldl emit (seen_ids g, yielded g) ids in
  mkGen (if under_covered prefix ids total_hits then rest ++ extensions prefix else rest)
        seen out (queried g ++ [prefix]).

(** The loop, for at most [fuel] turns; [None] when they do not suffice. *)
Fixpoint loop (query : oracle) (fuel : nat) (g : gen) : option gen :=
  match prefix_queue g with
  | [] => Some g
  | prefix :: rest =>
      match fuel with
      | O => None
      | S fuel' => loop query fuel' (turn query prefix rest g)
      end
  end.

Inductive outcome :=
  | NotInitialized          (** [RuntimeError] *)
  | Traversed (g : gen).

(** [discover_all] of a client whose [endpoint] is set or not. *)
Definition discover_all (endpoint_set : bool) (query : oracle) (fuel : nat)
    : option outcome :=
  if endpoint_set then Traversed <$> loop query fuel start
  else Some NotInitialized.

End AlgoliaClient.

(** ** models.py: the counters *)

Record ScrapeStats := mkStats {
  stat_discovered : Z;
  stat_downloaded : Z;
  stat_skipped : Z;
  stat_updated : Z;
  stat_failures : Z;
  stat_prefixes_queried : Z;
}.

Definition no_stats : ScrapeStats := mkStats 0 0 0 0 0 0.

(** ** scraper.py *)

Module RecipeScraper.
Import Py.

(** What one pass through the [try] block of [_download_recipe] meets: an
    exception before [save_recipe] is reached ([driver.get], the page load,
    [parse_recipe]), or a parsed page, with whether writing its record would
    raise. *)
Inductive attempt :=
  | Raises
  | Parsed (page : Recipe.t) (save_raises : bool).

(** The site and the browser: the [n]-th pass of the run meets [site n]. *)
Definition site := nat -> attempt.

Inductive event :=
  | Get (recipe_id : str)                 (** [driver.get(url)] *)
  | SleepRetry                            (** [time.sleep(retry_delay)] *)
  | SleepDownload                         (** [time.sleep(download_delay)] *)
  | DebugEmpty (recipe_id : str) (retry : Z)
  | WarningEmpty (recipe_id : str)
  | ErrorFailed (recipe_id : str)
  | DebugSkipping (recipe_id : str)
  | InfoScraping (n : nat)
  | InfoResuming (n : nat)
  | InfoDiscovery (found : Z) (queued : nat)
  | SleepAlgolia                           (** [time.sleep(algolia_delay)] *)
  | InfoProgress (s : ScrapeStats)
  | InfoComplete (s : ScrapeStats)
  | Logout.

(** [parse_recipe(driver, recipe_id)]: every [Recipe] the parser builds has
    [id=recipe_id]. *)
Definition parse_recipe (page : Recipe.t) (recipe_id : str) : Recipe.t :=
  Recipe.mk (VStr recipe_id) (Recipe.title page) (Recipe.source_url page)
            (Recipe.language page) (Recipe.rating_score page)
            (Recipe.rating_count page) (Recipe.tm_versions page)
            (Recipe.ingredients page) (Recipe.steps page) (Recipe.tags page)
            (Recipe.nutritions page).

Section WithLib.
Context `{PyLib}.

(** The scraper object and what it acts on. *)
Record World := mkWorld {
  disk : Disk;
  state : ScrapeState.t;
  stats : ScrapeStats;
  log : list event;
  (** passes through the [try] block made so far *)
  fetches : nat;
}.

Definition say (e : list event) (w : World) : World :=
  mkWorld (disk w) (state w) (stats w) (log w ++ e) (fetches w).
Definition with_disk (d : Disk) (w : World) : World :=
  mkWorld d (state w) (stats w) (log w) (fetches w).
Definition with_state (s : ScrapeState.t) (w : World) : World :=
  mkWorld (disk w) s (stats w) (log w) (fetches w).
Definition with_stats (s : ScrapeStats) (w : World) : World :=
  mkWorld (disk w) (state w) s (log w) (fetches w).
Definition fetched (w : World) : World :=
  mkWorld (disk w) (state w) (stats w) (log w) (S (fetches w)).

Definition count_skipped (w : World) : World :=
  let s := stats w in
  with_stats (mkStats (stat_discovered s) (stat_downloaded s) (stat_skipped s + 1)
                      (stat_updated s) (stat_failures s) (stat_prefixes_queried s)) w.
Definition count_downloaded (w : World) : World :=
  let s := stats w in
  with_stats (mkStats (stat_discovered s) (stat_downloaded s + 1) (stat_skipped s)
                      (stat_updated s) (stat_failures s) (stat_prefixes_queried s)) w.
Definition count_failure (w : World) : World :=
  let s := stats w in
  with_stats (mkStats (stat_discovered s) (stat_downloaded s) (stat_skipped s)
                      (stat_updated s) (stat_failures s + 1) (stat_prefixes_queried s)) w.

(** The [except] clause of [_download_recipe]. *)
Definition on_exception {A} (cfg : Config) (recipe_id : str) (attempt : Z)
    (again : World -> A) (abandon : World -> A) (w : World) : A :=
  if attempt <? max_retries cfg then again (say [SleepRetry] w)
  else abandon (say [ErrorFailed recipe_id] w).

(** [for attempt in range(max_retries + 1)], with [n] values of [attempt]
    left, the next one being [attempt]. *)
Fixpoint attempts (cfg : Config) (s : site) (recipe_id : str)
    (n : nat) (attempt : Z) (w : World) : bool * World :=
  match n with
  | O => (false, w)
  | S n' =>
      let again := attempts cfg s recipe_id n' (attempt + 1) in
      let w1 := fetched (say [Get recipe_id] w) in
      match s (fetches w) with
      | Raises => on_exception cfg recipe_id attempt again (pair false) w1
      | Parsed page save_raises =>
          let recipe := parse_recipe page recipe_id in
          if negb (Recipe.is_complete recipe) && (attempt <? max_retries cfg) then
            again (say [DebugEmpty recipe_id (attempt + 1); SleepRetry] w1)
          else
            let w2 := if Recipe.is_complete recipe then w1
                      else say [WarningEmpty recipe_id] w1 in
            if save_raises then
              on_exception cfg recipe_id attempt again (pair false) w2
            else
              (true, say [SleepDownload]
                         (with_disk (StateManager.save_recipe recipe (disk w2)) w2))
      end
  end.

Definition _download_recipe (cfg : Config) (s : site) (recipe_id : str)
    (w : World) : bool * World :=
  attempts cfg s recipe_id (Z.to_nat (max_retries cfg + 1)) 0 w.

Definition _normalize_id (recipe_id : str) : option str :=
  let rid := strip recipe_id in
  match rid with
  | [] => None
  | c :: _ =>
      let rid := if isdigit c then lit "r" ++ rid else rid in
      let rid := if negb (startswith (lit "r") rid)
                 then lit "r" ++ lstrip (lit "r") rid else rid in
      Some rid
  end.

(** The body of the loop of [_scrape_specific_recipes]. *)
Definition scrape_one (cfg : Config) (s : site) (w : World) (recipe_id : str)
    : World :=
  if negb (StateManager.should_download cfg (disk w) (state w) recipe_id) then
    count_skipped (say [DebugSkipping recipe_id] w)
  else
    let (success, w') := _download_recipe cfg s recipe_id w in
    if success then count_downloaded w' else count_failure w'.

Definition _scrape_specific_recipes (cfg : Config) (s : site) (w : World)
    : World :=
  let recipe_ids := omap _normalize_id (recipe_ids cfg) in
  let w := say [InfoScraping (length recipe_ids)] w in
  let w := foldl (scrape_one cfg s) w recipe_ids in
  say [InfoComplete (stats w)] w.

(** The body of the loop of [_download_worker] for one dequeued identifier,
    with [downloads_since_save]. *)
Definition worker_item (cfg : Config) (s : site) (acc : World * Z)
    (recipe_id : str) : World * Z :=
  let (w, since) := acc in
  let (success, w) := _download_recipe cfg s recipe_id w in
  let w := if success
           then with_state (StateManager.mark_completed recipe_id (state w))
                           (count_downloaded w)
           else with_state (StateManager.mark_failed recipe_id (state w))
                           (count_failure w) in
  let since := since + 1 in
  if save_interval cfg <=? since then
    (say [InfoProgress (stats w)]
         (with_disk (StateManager.save_state cfg (state w) (disk w)) w), 0)
  else (w, since).

(** [_download_worker] once discovery is over: it drains the identifiers in
    the queue and leaves on the first empty poll. *)
Definition _download_worker (cfg : Config) (s : site) (queue : list str)
    (w : World) : World :=
  (foldl (worker_item cfg s) (w, 0) queue).1.

(** The queue, the event and whether the discovery thread runs. *)
Record Pipeline := mkPipeline {
  download_queue : list str;
  discovery_done : bool;
  discovery_thread : bool;
}.

(** [__init__] leaves an empty queue and the event clear. *)
Definition idle : Pipeline := mkPipeline [] false false.

(** The resume test of [_run_discovery_and_download] and its two branches;
    a set is iterated in some order of its members. *)
Definition seed (cfg : Config) (w : World) (p : Pipeline) : World * Pipeline :=
  if bool_decide (mode cfg = CONTINUE)
     && negb (bool_decide (ScrapeState.pending (state w) = ∅)) then
    (say [InfoResuming (size (ScrapeState.pending (state w)))] w,
     mkPipeline (download_queue p ++ elements (ScrapeState.pending (state w)))
                true (discovery_thread p))
  else
    (w, mkPipeline (download_queue p) (discovery_done p) true).

Definition found (n : Z) (w : World) : World :=
  let s := stats w in
  with_stats (mkStats n (stat_downloaded s) (stat_skipped s) (stat_updated s)
                      (stat_failures s) (stat_prefixes_queried s)) w.

(** The body of the loop of [_discovery_worker] for one identifier that
    [discover_all] yields, when the download worker does not run in
    between. *)
Definition discovery_item (cfg : Config) (acc : World * Pipeline)
    (recipe_id : str) : World * Pipeline :=
  let (w, p) := acc in
  let w := with_state (StateManager.mark_discovered recipe_id (state w)) w in
  let w := found (Z.of_nat (size (ScrapeState.discovered (state w)))) w in
  if negb (StateManager.should_download cfg (disk w) (state w) recipe_id) then
    (count_skipped w, p)
  else
    let w := with_state (StateManager.mark_pending recipe_id (state w)) w in
    let p := mkPipeline (download_queue p ++ [recipe_id]) (discovery_done p)
                        (discovery_thread p) in
    let w := if stat_discovered (stats w) mod 100 =? 0
             then say [InfoDiscovery (stat_discovered (stats w))
                                     (length (download_queue p))] w
             else w in
    (say [SleepAlgolia] w, p).



End WithLib.
End RecipeScraper.

(** * Properties *)

(** A library instance to evaluate the definitions on: a [datetime] is
    identified with its ISO-8601 text, digits are the ASCII ones. *)
Definition text_lib : PyLib := {|
  datetime := str;
  isoformat := fun d => d;
  fromisoformat := fun s => Some s;
  isdigit := fun c => ((48 <=? c) && (c <=? 57))%N;
  format_other := fun _ => Py.lit "None";
|}.

(** A clock reading of that instance. *)
Definition epoch : @datetime text_lib := (Py.lit "1970-01-01T00:00:00" : list N).

(** ** Identifier normalisation *)

Section Normalize.
Context `{PyLib}.
Import Py RecipeScraper.

Definition ascii_digit (c : char) : Prop := (48 <= c <= 57)%N.

Lemma lstrip_by_head p c s : p c = false -> lstrip_by p (c :: s) = c :: s.
Proof. intros Hc. simpl. by rewrite Hc. Qed.

Lemma rstrip_by_last p s c : p c = false -> rstrip_by p (s ++ [c]) = s ++ [c].
Proof.
  intros Hc. unfold rstrip_by. rewrite rev_app_distr. simpl.
  rewrite Hc. simpl. by rewrite rev_involutive.
Qed.

Lemma digit_not_space c : ascii_digit c -> isspace c = false.
Proof.
  unfold ascii_digit. intros [Hlo Hhi].
  assert (c = 48 \/ c = 49 \/ c = 50 \/ c = 51 \/ c = 52 \/ c = 53 \/ c = 54
          \/ c = 55 \/ c = 56 \/ c = 57)%N as Hc by lia.
  repeat destruct Hc as [->|Hc]; try reflexivity. by subst.
Qed.

Lemma strip_digits s : Forall ascii_digit s -> strip s = s.
Proof.
  intros Hs. unfold strip. destruct s as [|c s]; [done|].
  rewrite lstrip_by_head by (apply digit_not_space; by inversion Hs).
  destruct (exists_last (l := c :: s)) as (s' & d & Heq); [done|].
  rewrite Heq in *. apply rstrip_by_last, digit_not_space.
  apply Forall_app in Hs as [_ Hd]. by inversion Hd.
Qed.

(** The one fact about [str.isdigit] that matters: the letter [r] is not a
    digit. *)
Hypothesis isdigit_r : isdigit 114%N = false.

(** What [_normalize_id] computes, whatever else [isdigit] says: the stripped
    identifier, with an [r] in front unless it has one. *)
Lemma normalize_id_spec recipe_id :
  _normalize_id recipe_id =
    match strip recipe_id with
    | [] => None
    | c :: rest => Some (if (c =? 114)%N then c :: rest else 114%N :: c :: rest)
    end.
Proof.
  unfold _normalize_id. change (lit "r") with [114%N].
  destruct (strip recipe_id) as [|c rest]; [done|].
  f_equal. destruct (N.eqb_spec c 114) as [->|Hc].
  - rewrite isdigit_r. by rewrite startswith_cons, N.eqb_refl.
  - assert ((114 =? c)%N = false) as Hc' by (apply N.eqb_neq; congruence).
    assert (bool_decide (c ∈ [114%N]) = false) as Hin.
    { apply bool_decide_eq_false. rewrite list_elem_of_singleton. done. }
    destruct (isdigit c); cbn [app]; rewrite startswith_cons.
    + by rewrite N.eqb_refl.
    + rewrite Hc'. cbn [andb negb]. unfold lstrip. cbn [lstrip_by].
      by rewrite Hin.
Qed.

(** C9. Normalising "123" gives "r123", normalising "r123" gives "r123",
    normalising the empty string gives no result, and every identifier made
    of decimal digits only gets the letter "r" in front. *)
Theorem normalize_id_prefix :
  _normalize_id (lit "123") = Some (lit "r123")
  /\ _normalize_id (lit "r123") = Some (lit "r123")
  /\ _normalize_id (lit "") = None
  /\ forall recipe_id, recipe_id <> [] -> Forall ascii_digit recipe_id ->
       _normalize_id recipe_id = Some (lit "r" ++ recipe_id).
Proof.
  split; [|split; [|split]]; try (rewrite normalize_id_spec; reflexivity).
  intros rid Hne Hd. rewrite normalize_id_spec, (strip_digits _ Hd).
  destruct rid as [|c rest]; [done|].
  destruct (N.eqb_spec c 114) as [->|_]; [|done].
  inversion Hd as [|? ? [Hlo Hhi] _]. lia.
Qed.

End Normalize.

Lemma normalize_id_prefix_witness :
  [55; 48; 52]%N <> [] /\ Forall ascii_digit [55; 48; 52]%N
  /\ @RecipeScraper._normalize_id text_lib [55; 48; 52]%N = Some [114; 55; 48; 52]%N.
Proof.
  assert ([55; 48; 52]%N <> []) as Hne by done.
  assert (Forall ascii_digit [55; 48; 52]%N) as Hd
    by (repeat constructor; unfold ascii_digit; lia).
  split; [exact Hne|]. split; [exact Hd|].
  exact (proj2 (proj2 (proj2 (@normalize_id_prefix text_lib eq_refl))) _ Hne Hd).
Defined.

(** ** The fetch decision *)

Section ShouldDownload.
Context `{PyLib}.
Import StateManager.

Lemma recipe_exists_false d recipe_id :
  recipe_exists d recipe_id = false <-> files d !! recipe_path recipe_id = None.
Proof.
  unfold recipe_exists. rewrite bool_decide_eq_false, <- eq_None_not_Some. done.
Qed.

(** C1. [should_download] in each of the four modes, and after
    [mark_completed]: always true in the redownload and update modes; in the
    continue mode true exactly for the identifiers that are pending or failed;
    in the skip mode false for a completed identifier and otherwise true
    exactly when the record file is absent; false in the skip mode right after
    [mark_completed]. *)
Theorem should_download_table sf ids mr si d st recipe_id :
  let cfg m := mkConfig sf m ids mr si in
  should_download (cfg REDOWNLOAD_ALL) d st recipe_id = true
  /\ should_download (cfg UPDATE) d st recipe_id = true
  /\ (should_download (cfg CONTINUE) d st recipe_id = true
      <-> recipe_id ∈ ScrapeState.pending st \/ recipe_id ∈ ScrapeState.failed st)
  /\ (recipe_id ∈ ScrapeState.completed st ->
      should_download (cfg SKIP_EXISTING) d st recipe_id = false)
  /\ (recipe_id ∉ ScrapeState.completed st ->
      (should_download (cfg SKIP_EXISTING) d st recipe_id = true
       <-> files d !! recipe_path recipe_id = None))
  /\ should_download (cfg SKIP_EXISTING) d (mark_completed recipe_id st) recipe_id
     = false.
Proof.
  intros cfg. unfold should_download, cfg; cbn [mode].
  repeat split.
  - intros Hb. apply orb_true_iff in Hb as [Hb|Hb];
      apply bool_decide_eq_true in Hb; auto.
  - intros [Hin|Hin]; apply orb_true_iff; [left|right];
      by apply bool_decide_eq_true.
  - intros Hin. by rewrite bool_decide_eq_true_2.
  - rewrite bool_decide_eq_false_2 by done.
    rewrite negb_true_iff. apply recipe_exists_false.
  - rewrite bool_decide_eq_false_2 by done.
    rewrite negb_true_iff. apply recipe_exists_false.
  - rewrite bool_decide_eq_true_2; [done|].
    unfold mark_completed; cbn. set_solver.
Qed.

End ShouldDownload.

(** The table on a state with [r1] completed and [r2] not, no record file. *)
Lemma should_download_table_witness :
  let r1 := Py.lit "r1" in
  let r2 := Py.lit "r2" in
  let st := @ScrapeState.mk text_lib ∅ ∅ {[r1]} ∅ (ScrapeState.Stamp epoch) in
  let d := mkDisk true ∅ in
  let cfg := mkConfig default_state_file SKIP_EXISTING [] 2 10 in
  (r1 ∈ ScrapeState.completed st)
  /\ (r2 ∉ ScrapeState.completed st)
  /\ StateManager.should_download cfg d st r1 = false
  /\ (StateManager.should_download cfg d st r2 = true
      <-> files d !! StateManager.recipe_path r2 = None).
Proof.
  intros r1 r2 st d cfg.
  assert (r1 ∈ ScrapeState.completed st) as H1 by (cbn; set_solver).
  assert (r2 ∉ ScrapeState.completed st) as H2.
  { cbn. rewrite elem_of_singleton. unfold r1, r2. vm_compute. congruence. }
  split; [exact H1|]. split; [exact H2|].
  pose proof (@should_download_table text_lib default_state_file [] 2 10 d st r1)
    as (_ & _ & _ & Hc & _).
  pose proof (@should_download_table text_lib default_state_file [] 2 10 d st r2)
    as (_ & _ & _ & _ & Hn & _).
  split; [exact (Hc H1) | exact (Hn H2)].
Defined.

(** ** The invariants of the crawl state *)

Section Invariants.
Context `{PyLib}.
Import Py StateManager.

Abbreviation discovered := ScrapeState.discovered.
Abbreviation pending := ScrapeState.pending.
Abbreviation completed := ScrapeState.completed.
Abbreviation failed := ScrapeState.failed.

(** [completed] and [pending] share no identifier, nor do [failed] and
    [pending]. *)
Definition exclusive (st : ScrapeState.t) : Prop :=
  completed st ## pending st /\ failed st ## pending st.

(** [discovered] holds every identifier of the other three sets. *)
Definition covered (st : ScrapeState.t) : Prop :=
  pending st ∪ completed st ∪ failed st ⊆ discovered st.

Definition invariants (st : ScrapeState.t) : Prop := exclusive st /\ covered st.

(** An operation keeps the invariants and never takes an identifier out of
    [discovered]. *)
Definition preserving (op : ScrapeState.t -> ScrapeState.t) : Prop :=
  forall st, invariants st -> invariants (op st) /\ discovered st ⊆ discovered (op st).

(** *** The four mutators *)

Lemma mark_discovered_grows recipe_id st :
  discovered st ⊆ discovered (mark_discovered recipe_id st).
Proof. cbn. set_solver. Qed.

Lemma mark_discovered_exclusive recipe_id st :
  exclusive st -> exclusive (mark_discovered recipe_id st).
Proof. unfold exclusive; cbn. done. Qed.

Lemma mark_discovered_covered recipe_id st :
  covered st -> covered (mark_discovered recipe_id st).
Proof. unfold covered; cbn. set_solver. Qed.

Lemma mark_completed_exclusive recipe_id st :
  exclusive st -> exclusive (mark_completed recipe_id st).
Proof. unfold exclusive; cbn. set_solver. Qed.

Lemma mark_completed_covered recipe_id st :
  recipe_id ∈ discovered st -> covered st -> covered (mark_completed recipe_id st).
Proof. unfold covered; cbn. set_solver. Qed.

Lemma mark_failed_exclusive recipe_id st :
  exclusive st -> exclusive (mark_failed recipe_id st).
Proof. unfold exclusive; cbn. set_solver. Qed.

Lemma mark_failed_covered recipe_id st :
  recipe_id ∈ discovered st -> covered st -> covered (mark_failed recipe_id st).
Proof. unfold covered; cbn. set_solver. Qed.

Lemma mark_pending_exclusive recipe_id st :
  recipe_id ∉ completed st -> recipe_id ∉ failed st ->
  exclusive st -> exclusive (mark_pending recipe_id st).
Proof. unfold exclusive; cbn. set_solver. Qed.

Lemma mark_pending_covered recipe_id st :
  recipe_id ∈ discovered st -> covered st -> covered (mark_pending recipe_id st).
Proof. unfold covered; cbn. set_solver. Qed.

(** *** File names *)

Lemma startswith_app p s : startswith p s = true -> exists t, s = p ++ t.
Proof.
  revert s. induction p as [|a p IH]; intros s Hs; [by exists s|].
  destruct s as [|b s]; [done|]. rewrite startswith_cons in Hs.
  apply andb_true_iff in Hs as [Hab Hs]. apply N.eqb_eq in Hab as ->.
  destruct (IH _ Hs) as [t ->]. by exists t.
Qed.

Lemma endswith_app p s : endswith p s = true -> exists b, s = b ++ p.
Proof.
  unfold endswith. intros Hs. apply startswith_app in Hs as [t Ht].
  exists (rev t). apply (f_equal (@rev N)) in Ht.
  by rewrite rev_involutive, rev_app_distr, rev_involutive in Ht.
Qed.

Lemma stem_json b : b <> [] -> stem (b ++ lit ".json") = b.
Proof.
  intros Hb. unfold stem. rewrite rev_app_distr.
  change (rev (lit ".json")) with [110; 111; 115; 106; 46]%N.
  cbn [app cut_at_dot N.eqb Pos.eqb].
  destruct (rev b) as [|c r] eqn:Hr.
  - apply (f_equal (@rev N)) in Hr. rewrite rev_involutive in Hr. done.
  - by rewrite <- Hr, rev_involutive.
Qed.

(** A scanned name is the identifier followed by [.json]. *)
Lemma scanned_name name :
  endswith (lit ".json") name = true -> startswith (lit ".") name = false ->
  name = stem name ++ lit ".json".
Proof.
  intros He Hs. apply endswith_app in He as [b ->].
  destruct b as [|c b]; [done|]. by rewrite stem_json.
Qed.

(** *** The startup scan *)

(** The branch [scan_file] takes on a directory entry. *)
Inductive verdict := Skipped | Complete | Incomplete | Corrupt.

#[global] Instance verdict_eq_dec : EqDecision verdict.
Proof. solve_decision. Defined.

Definition verdict_of (e : str * file) : verdict :=
  if startswith (lit ".") e.1 then Skipped
  else match e.2 with
       | FileGarbage => Corrupt
       | FileJson data =>
           match Recipe.from_dict data with
           | None => Corrupt
           | Some recipe =>
               if Recipe.is_complete recipe then Complete else Incomplete
           end
       end.

Lemma scan_file_verdict st e :
  scan_file st e =
    let recipe_id := stem e.1 in
    match verdict_of e with
    | Skipped => st
    | Complete =>
        ScrapeState.mk ({[recipe_id]} ∪ discovered st) (pending st ∖ {[recipe_id]})
                       ({[recipe_id]} ∪ completed st) (failed st)
                       (ScrapeState.last_updated st)
    | Incomplete =>
        ScrapeState.mk ({[recipe_id]} ∪ discovered st) ({[recipe_id]} ∪ pending st)
                       (completed st) (failed st) (ScrapeState.last_updated st)
    | Corrupt =>
        ScrapeState.mk ({[recipe_id]} ∪ discovered st) (pending st)
                       ({[recipe_id]} ∪ completed st) (failed st)
                       (ScrapeState.last_updated st)
    end.
Proof.
  destruct e as [name f]. unfold scan_file, verdict_of. cbn [fst snd].
  destruct (startswith (lit ".") name); [done|].
  destruct f as [data|]; [|done].
  destruct (Recipe.from_dict data) as [recipe|]; [|done].
  by destruct (Recipe.is_complete recipe).
Qed.

Lemma scan_file_grows st e : discovered st ⊆ discovered (scan_file st e).
Proof. rewrite scan_file_verdict. destruct (verdict_of e); cbn; set_solver. Qed.

Lemma scan_file_covered st e : covered st -> covered (scan_file st e).
Proof.
  rewrite scan_file_verdict. unfold covered.
  destruct (verdict_of e); cbn; set_solver.
Qed.

Lemma scan_file_exclusive st e :
  verdict_of e <> Corrupt ->
  (verdict_of e = Incomplete ->
   (stem e.1 ∉ completed st) /\ (stem e.1 ∉ failed st)) ->
  exclusive st -> exclusive (scan_file st e).
Proof.
  rewrite scan_file_verdict. unfold exclusive.
  destruct (verdict_of e); cbn; intros Hc Hi; [done|set_solver| |done].
  destruct Hi as [? ?]; [done|]. set_solver.
Qed.

Lemma scan_file_completed st e :
  completed (scan_file st e) ⊆
    (if bool_decide (verdict_of e = Skipped) then ∅ else {[stem e.1]}) ∪ completed st.
Proof.
  rewrite scan_file_verdict. destruct (verdict_of e); cbn; set_solver.
Qed.

Lemma scan_file_failed st e : failed (scan_file st e) = failed st.
Proof. rewrite scan_file_verdict. by destruct (verdict_of e). Qed.

(** The identifiers of the entries the scan does not skip. *)
Definition scanned_ids (l : list (str * file)) : list str :=
  omap (fun e => if startswith (lit ".") e.1 then None else Some (stem e.1)) l.

Lemma scanned_ids_cons e l :
  scanned_ids (e :: l) =
    (if startswith (lit ".") e.1 then [] else [stem e.1]) ++ scanned_ids l.
Proof.
  unfold scanned_ids. cbn [omap list_omap].
  by destruct (startswith (lit ".") e.1).
Qed.

Lemma foldl_scan_grows l st : discovered st ⊆ discovered (foldl scan_file st l).
Proof.
  revert st. induction l as [|e l IH]; intros st; cbn; [done|].
  etrans; [apply (scan_file_grows st e)|apply IH].
Qed.

Lemma foldl_scan_covered l st : covered st -> covered (foldl scan_file st l).
Proof.
  revert st. induction l as [|e l IH]; intros st Hc; cbn; [done|].
  by apply IH, scan_file_covered.
Qed.

Lemma foldl_scan_exclusive l st :
  NoDup (scanned_ids l) ->
  (forall e, e ∈ l -> verdict_of e <> Corrupt) ->
  (forall e, e ∈ l -> verdict_of e = Incomplete ->
     (stem e.1 ∉ completed st) /\ (stem e.1 ∉ failed st)) ->
  exclusive st -> exclusive (foldl scan_file st l).
Proof.
  revert st. induction l as [|e l IH]; intros st Hnd Hc Hi Hex; cbn; [done|].
  apply IH.
  - rewrite scanned_ids_cons in Hnd. by apply NoDup_app in Hnd as (_ & _ & ?).
  - intros e' He'. apply Hc. by right.
  - intros e' He' Hv.
    destruct (Hi e' (list_elem_of_further _ _ _ He') Hv) as [Hnc Hnf].
    rewrite scan_file_failed. split; [|done].
    intros Hin. apply scan_file_completed in Hin.
    apply elem_of_union in Hin as [Hin|Hin]; [|done].
    case_bool_decide as Hs; [set_solver|].
    apply elem_of_singleton in Hin.
    rewrite scanned_ids_cons in Hnd.
    assert (startswith (lit ".") e.1 = false) as Hdot.
    { unfold verdict_of in Hs. by destruct (startswith (lit ".") e.1). }
    rewrite Hdot in Hnd. cbn [app] in Hnd. apply NoDup_cons in Hnd as [Hnotin _].
    apply Hnotin. apply list_elem_of_omap. exists e'. split; [done|].
    unfold verdict_of in Hv. destruct (startswith (lit ".") e'.1); [done|].
    by rewrite Hin.
  - apply scan_file_exclusive; [|intros Hv|done].
    + apply Hc. by left.
    + apply Hi; [by left|done].
Qed.

Lemma NoDup_omap_fst {A B C} (h : A * B -> option C) (l : list (A * B)) :
  NoDup l.*1 ->
  (forall a b a' b' c, h (a, b) = Some c -> h (a', b') = Some c -> a = a') ->
  NoDup (omap h l).
Proof.
  intros Hnd Hinj. induction l as [|[a b] l IH]; cbn; [constructor|].
  cbn in Hnd. apply NoDup_cons in Hnd as [Ha Hnd].
  destruct (h (a, b)) as [c|] eqn:Hc; [|by apply IH].
  apply NoDup_cons. split; [|by apply IH].
  intros Hin. apply list_elem_of_omap in Hin as ([a' b'] & Hin & Hc').
  rewrite (Hinj _ _ _ _ _ Hc Hc') in Ha.
  apply Ha. apply list_elem_of_fmap. by exists (a', b').
Qed.


(** No two scanned files have the same identifier. *)
Lemma NoDup_scanned_ids d : NoDup (scanned_ids (glob_json d)).
Proof.
  unfold scanned_ids, glob_json.
  set (g := fun e : path * file =>
              match e with
              | (OutputFile name, f) =>
                  if endswith (lit ".json") name then Some (name, f) else None
              | _ => None
              end).
  set (k := fun e : str * file =>
              if startswith (lit ".") e.1 then None else Some (stem e.1)).
  assert (forall l, omap k (omap g l) = omap (fun e => g e ≫= k) l) as ->.
  { induction l as [|e l IH]; [done|]. cbn [omap list_omap].
    destruct (g e) as [e'|]; cbn [omap list_omap mbind option_bind]; [|done].
    by rewrite IH. }
  apply NoDup_omap_fst; [apply NoDup_fst_map_to_list|].
  intros p f p' f' c Hp Hp'.
  assert (forall q x, g (q, x) ≫= k = Some c -> q = OutputFile (c ++ lit ".json"))
    as Hq.
  { intros [name|] x; cbn; [|done].
    destruct (endswith (lit ".json") name) eqn:He; cbn; [|done].
    unfold k; cbn. destruct (startswith (lit ".") name) eqn:Hs; [done|].
    intros [= <-]. f_equal. by apply scanned_name. }
  by rewrite (Hq _ _ Hp), (Hq _ _ Hp').
Qed.

(** C2, as the code has it. No operation takes an identifier out of
    [discovered]. [mark_discovered] keeps the three invariants.
    [mark_completed] and [mark_failed] keep the two exclusions, and keep
    [discovered] a superset when the identifier is already discovered.
    [mark_pending] keeps [discovered] a superset when the identifier is
    already discovered, and keeps the exclusions when the identifier is
    neither completed nor failed. The startup scan keeps [discovered] a
    superset; it keeps the exclusions when every scanned file parses and no
    scanned incomplete record has its identifier in [completed] or
    [failed]. *)
Theorem mutators_keep_invariants recipe_id d st :
  invariants st ->
  (discovered st ⊆ discovered (mark_discovered recipe_id st)
   /\ discovered st ⊆ discovered (mark_pending recipe_id st)
   /\ discovered st ⊆ discovered (mark_completed recipe_id st)
   /\ discovered st ⊆ discovered (mark_failed recipe_id st)
   /\ discovered st ⊆ discovered (_scan_existing_recipes d st))
  /\ invariants (mark_discovered recipe_id st)
  /\ exclusive (mark_completed recipe_id st)
  /\ exclusive (mark_failed recipe_id st)
  /\ (recipe_id ∈ discovered st ->
      covered (mark_completed recipe_id st)
      /\ covered (mark_failed recipe_id st)
      /\ covered (mark_pending recipe_id st))
  /\ ((recipe_id ∉ completed st) -> (recipe_id ∉ failed st) ->
      exclusive (mark_pending recipe_id st))
  /\ covered (_scan_existing_recipes d st)
  /\ ((forall e, e ∈ glob_json d -> verdict_of e <> Corrupt) ->
      (forall e, e ∈ glob_json d -> verdict_of e = Incomplete ->
         (stem e.1 ∉ completed st) /\ (stem e.1 ∉ failed st)) ->
      exclusive (_scan_existing_recipes d st)).
Proof.
  intros [Hex Hcov]. unfold _scan_existing_recipes.
  split; [|split; [|split; [|split; [|split; [|split; [|split]]]]]].
  - repeat split; try (cbn; set_solver).
    destruct (output_is_dir d); [apply foldl_scan_grows|done].
  - split; [by apply mark_discovered_exclusive|by apply mark_discovered_covered].
  - by apply mark_completed_exclusive.
  - by apply mark_failed_exclusive.
  - intros Hin. split; [|split].
    + by apply mark_completed_covered.
    + by apply mark_failed_covered.
    + by apply mark_pending_covered.
  - intros. by apply mark_pending_exclusive.
  - destruct (output_is_dir d); [by apply foldl_scan_covered|done].
  - intros Hc Hi. destruct (output_is_dir d); [|done].
    apply foldl_scan_exclusive; [apply NoDup_scanned_ids|done..].
Qed.

End Invariants.

(** A record file with empty [ingredients] and [steps]. *)
Definition empty_record : Py.value :=
  Py.VDict [ (Py.lit "ingredients", Py.VList []); (Py.lit "steps", Py.VList []) ].

(** A record file with one step. *)
Definition complete_record : Py.value :=
  Py.VDict [ (Py.lit "steps", Py.VList [Py.VStr (Py.lit "Mix.")]) ].

(** C2 as stated fails. In the update mode every identifier found on disk is
    completed and [mark_pending] makes it pending as well: so does a run on a
    directory holding [r1.json] when discovery yields [r1]. [mark_pending] of
    a failed identifier leaves it failed; [mark_pending], [mark_completed] and
    [mark_failed] do not touch [discovered]; the scan makes the identifier of
    an incomplete record pending while the loaded state has it completed. *)
Lemma mutators_break_invariants :
  let r1 := Py.lit "r1" in
  let st0 := @ScrapeState.empty text_lib epoch in
  let st1 := @ScrapeState.mk text_lib {[r1]} ∅ {[r1]} ∅ (ScrapeState.Stamp epoch) in
  let st2 := @ScrapeState.mk text_lib {[r1]} ∅ ∅ {[r1]} (ScrapeState.Stamp epoch) in
  let d := mkDisk true {[ OutputFile (Py.lit "r1.json") := FileJson empty_record ]} in
  let cfg := mkConfig default_state_file UPDATE [] 2 10 in
  let d' := mkDisk true {[ OutputFile (Py.lit "r1.json") := FileJson complete_record ]} in
  let w := RecipeScraper.mkWorld d' (StateManager.init cfg epoch d') no_stats [] 0 in
  (invariants st0 /\ invariants st1 /\ invariants st2)
  /\ ~ exclusive (StateManager.mark_pending r1 st1)
  /\ ~ exclusive (StateManager.mark_pending r1 st2)
  /\ ~ covered (StateManager.mark_pending r1 st0)
  /\ ~ covered (StateManager.mark_completed r1 st0)
  /\ ~ covered (StateManager.mark_failed r1 st0)
  /\ ~ exclusive (StateManager._scan_existing_recipes d st1)
  /\ (RecipeScraper.state w = st1
      /\ ~ exclusive (RecipeScraper.state
                        (RecipeScraper.discovery_item cfg (w, RecipeScraper.idle) r1).1)).
Proof.
  intros r1 st0 st1 st2 d cfg d' w.
  assert (StateManager.stem (Py.lit "r1.json") = r1) as Hstem
    by (vm_compute; reflexivity).
  assert (verdict_of (Py.lit "r1.json", FileJson empty_record) = Incomplete) as Hv
    by (vm_compute; reflexivity).
  assert (verdict_of (Py.lit "r1.json", FileJson complete_record) = Complete) as Hv'
    by (vm_compute; reflexivity).
  assert (Py.endswith (Py.lit ".json") (Py.lit "r1.json") = true) as Hjson
    by (vm_compute; reflexivity).
  assert (StateManager._scan_existing_recipes d st1
          = @ScrapeState.mk text_lib ({[r1]} ∪ {[r1]}) ({[r1]} ∪ ∅) {[r1]} ∅
                            (ScrapeState.Stamp epoch))
    as Hscan.
  { unfold StateManager._scan_existing_recipes, StateManager.glob_json, d.
    cbn [output_is_dir files]. rewrite map_to_list_singleton.
    cbn [omap list_omap]. rewrite Hjson. cbn [foldl].
    rewrite scan_file_verdict, Hv. cbn [fst]. rewrite Hstem. reflexivity. }
  assert (RecipeScraper.state w
          = @ScrapeState.mk text_lib ({[r1]} ∪ ∅) (∅ ∖ {[r1]}) ({[r1]} ∪ ∅) ∅
                            (ScrapeState.Stamp epoch))
    as Hinit.
  { unfold w, StateManager.init, StateManager._load_state, StateManager.glob_json,
      StateManager._scan_existing_recipes, d'.
    cbn [RecipeScraper.state output_is_dir files state_file cfg].
    rewrite lookup_singleton_ne by done.
    unfold StateManager.glob_json. cbn [files]. rewrite map_to_list_singleton.
    cbn [omap list_omap]. rewrite Hjson. cbn [foldl].
    rewrite scan_file_verdict, Hv'. cbn [fst]. rewrite Hstem. reflexivity. }
  assert (RecipeScraper.state
            (RecipeScraper.discovery_item cfg (w, RecipeScraper.idle) r1).1
          = StateManager.mark_pending r1
              (StateManager.mark_discovered r1 (RecipeScraper.state w))) as Hitem.
  { unfold RecipeScraper.discovery_item, StateManager.should_download, cfg.
    cbn [mode negb]. by destruct (_ =? 0). }
  rewrite Hscan, Hitem, Hinit. clearbody r1. clear Hscan Hstem Hitem Hinit.
  unfold invariants, exclusive, covered, st0, st1, st2, ScrapeState.empty,
    StateManager.mark_pending, StateManager.mark_completed,
    StateManager.mark_failed, StateManager.mark_discovered.
  cbn [ScrapeState.discovered ScrapeState.pending ScrapeState.completed
       ScrapeState.failed].
  split; [|split; [|split; [|split; [|split; [|split; [|split; [|split]]]]]]];
    try set_solver.
  f_equal; set_solver.
Qed.

(** The amended statement on a consistent state and a directory with one
    complete record. *)
Lemma mutators_keep_invariants_witness :
  let r1 := Py.lit "r1" in
  let st := @ScrapeState.mk text_lib {[r1]} {[r1]} ∅ ∅ (ScrapeState.Stamp epoch) in
  let d := mkDisk true ∅ in
  invariants st
  /\ invariants (StateManager.mark_discovered r1 st)
  /\ covered (StateManager.mark_completed r1 st)
  /\ exclusive (StateManager.mark_pending r1 st)
  /\ exclusive (StateManager._scan_existing_recipes d st).
Proof.
  intros r1 st d. clearbody r1.
  assert (invariants st) as Hinv.
  { unfold invariants, exclusive, covered, st.
    cbn [ScrapeState.discovered ScrapeState.pending ScrapeState.completed
         ScrapeState.failed].
    repeat split; set_solver. }
  assert (r1 ∈ ScrapeState.discovered st) as Hd by apply elem_of_singleton_2, eq_refl.
  assert (r1 ∉ ScrapeState.completed st) as Hc by apply not_elem_of_empty.
  assert (r1 ∉ ScrapeState.failed st) as Hf by apply not_elem_of_empty.
  assert (StateManager.glob_json d = []) as Hglob.
  { unfold StateManager.glob_json, d. cbn [files].
    by rewrite map_to_list_empty. }
  assert (forall e, e ∈ StateManager.glob_json d -> verdict_of e <> Corrupt) as Hg1.
  { intros e He. rewrite Hglob in He. by apply elem_of_nil in He. }
  assert (forall e, e ∈ StateManager.glob_json d -> verdict_of e = Incomplete ->
            (StateManager.stem e.1 ∉ ScrapeState.completed st)
            /\ (StateManager.stem e.1 ∉ ScrapeState.failed st)) as Hg2.
  { intros e He. rewrite Hglob in He. by apply elem_of_nil in He. }
  destruct (@mutators_keep_invariants text_lib r1 d st Hinv)
    as (_ & Hmd & _ & _ & Hcov & Hmp & _ & Hscan).
  split; [exact Hinv|]. split; [exact Hmd|].
  split; [exact (proj1 (Hcov Hd))|].
  split; [exact (Hmp Hc Hf)|exact (Hscan Hg1 Hg2)].
Defined.

(** ** The classification of stored records by the startup scan *)

Section Classification.
Context `{PyLib}.
Import Py StateManager.

(** A record that parses and is complete becomes completed and discovered
    and stops being pending. *)
Lemma scan_file_complete st e :
  verdict_of e = Complete ->
  (stem e.1 ∈ ScrapeState.completed (scan_file st e))
  /\ (stem e.1 ∈ ScrapeState.discovered (scan_file st e))
  /\ (stem e.1 ∉ ScrapeState.pending (scan_file st e)).
Proof. rewrite scan_file_verdict. intros ->. cbn. set_solver. Qed.

(** A record that parses and is incomplete becomes pending and discovered. *)
Lemma scan_file_incomplete st e :
  verdict_of e = Incomplete ->
  (stem e.1 ∈ ScrapeState.pending (scan_file st e))
  /\ (stem e.1 ∈ ScrapeState.discovered (scan_file st e)).
Proof. rewrite scan_file_verdict. intros ->. cbn. set_solver. Qed.

(** A file that does not parse becomes completed and discovered; [pending]
    is left as it was, so an identifier pending before stays pending. *)
Lemma scan_file_corrupt st e :
  verdict_of e = Corrupt ->
  (stem e.1 ∈ ScrapeState.completed (scan_file st e))
  /\ (stem e.1 ∈ ScrapeState.discovered (scan_file st e))
  /\ ScrapeState.pending (scan_file st e) = ScrapeState.pending st.
Proof. rewrite scan_file_verdict. intros ->. cbn. set_solver. Qed.

(** A document with empty [ingredients] and [steps] is an incomplete
    record. *)
Lemma empty_record_incomplete :
  Recipe.is_complete <$> Recipe.from_dict empty_record = Some false.
Proof. reflexivity. Qed.

End Classification.

(** The recovery file of a run interrupted while [r1] was pending, as
    [save_state] writes it. *)
Definition interrupted_state : Py.value :=
  Py.VDict [ (Py.lit "discovered", Py.VList [Py.VStr (Py.lit "r1")]);
             (Py.lit "pending", Py.VList [Py.VStr (Py.lit "r1")]);
             (Py.lit "completed", Py.VList []);
             (Py.lit "failed", Py.VList []);
             (Py.lit "last_updated", Py.VStr (Py.lit "2024-05-01T10:00:00")) ].

(** C8, where the code departs from it. The recovery file has [r1] pending
    and [r1.json] is unreadable: after [StateManager.__init__] the identifier
    is completed and still pending, so the continue mode fetches it again and
    the resumed run enqueues it. With a complete [r1.json] in its place the
    scan takes [r1] out of [pending]. *)
Theorem scan_corrupt_stays_pending :
  let r1 := Py.lit "r1" in
  let cfg := mkConfig default_state_file CONTINUE [] 2 10 in
  let disk_with f :=
    mkDisk true {[ default_state_file := FileJson interrupted_state;
                   OutputFile (Py.lit "r1.json") := f ]} in
  let d := disk_with FileGarbage in
  let st := @StateManager.init text_lib cfg epoch d in
  r1 ∈ ScrapeState.completed st
  /\ r1 ∈ ScrapeState.pending st
  /\ StateManager.should_download cfg d st r1 = true
  /\ RecipeScraper.download_queue
       (RecipeScraper.seed cfg (RecipeScraper.mkWorld d st no_stats [] 0)
                           RecipeScraper.idle).2 = [r1]
  /\ r1 ∉ ScrapeState.pending
            (@StateManager.init text_lib cfg epoch
               (disk_with (FileJson complete_record))).
Proof.
  intros r1 cfg disk_with d st.
  split; [|split; [|split; [|split]]].
  - apply (bool_decide_unpack _). vm_compute. exact I.
  - apply (bool_decide_unpack _). vm_compute. exact I.
  - vm_compute. reflexivity.
  - vm_compute. reflexivity.
  - apply (bool_decide_unpack _). vm_compute. exact I.
Qed.

(** ** The recovery file *)

Lemma str_leb_total a b : str_leb a b = true \/ str_leb b a = true.
Proof.
  revert b. induction a as [|x a IH]; intros [|y b]; cbn; auto.
  destruct (N.lt_total x y) as [Hlt|[->|Hgt]].
  - left. apply (proj2 (N.ltb_lt _ _)) in Hlt. by rewrite Hlt.
  - rewrite N.ltb_irrefl, N.eqb_refl. cbn. apply IH.
  - right. apply (proj2 (N.ltb_lt _ _)) in Hgt. by rewrite Hgt.
Qed.

#[global] Instance str_le_total : Total str_le.
Proof. intros a b. apply str_leb_total. Qed.



Section RoundTrip.
Context `{PyLib}.
Import Py.

(** The contract of the standard library: [fromisoformat] is the inverse of
    [isoformat]. *)
Hypothesis fromisoformat_isoformat :
  forall d : datetime, fromisoformat (isoformat d) = Some d.

Lemma mapM_as_str (l : list str) : mapM ScrapeState.as_str (VStr <$> l) = Some l.
Proof. induction l as [|s l IH]; [done|]. cbn. by rewrite IH. Qed.

(** Reading an array of strings gives the set of its members, whatever their
    order. *)
Lemma set_of_str_list (l : list str) :
  ScrapeState.set_of (or_ (ScrapeState.str_list l) (VList [])) = Some (list_to_set l).
Proof.
  assert (or_ (ScrapeState.str_list l) (VList []) = VList (VStr <$> l)) as ->
    by by destruct l.
  unfold ScrapeState.set_of. by rewrite mapM_as_str.
Qed.





End RoundTrip.


(** ** Resuming from the recovery file *)

Section Resume.
Context `{PyLib}.
Import RecipeScraper.

(** C4. In the continue mode with a non-empty [pending], no discovery thread
    is started, the event is set, the crawl state is not touched, and the
    queue holds each pending identifier once and nothing else: an identifier
    that is failed and not pending is not enqueued. With pending [r1], [r2]
    and failed [r3] the queue is a listing of [r1], [r2]. *)
Theorem resume_seeds_pending sf ids mr si w :
  let cfg := mkConfig sf CONTINUE ids mr si in
  let p := (seed cfg w idle).2 in
  ScrapeState.pending (state w) <> ∅ ->
  (discovery_thread p = false /\ discovery_done p = true
   /\ state (seed cfg w idle).1 = state w)
  /\ NoDup (download_queue p)
  /\ (forall recipe_id,
        recipe_id ∈ download_queue p <-> recipe_id ∈ ScrapeState.pending (state w))
  /\ (forall recipe_id,
        recipe_id ∈ ScrapeState.failed (state w) ->
        (recipe_id ∉ ScrapeState.pending (state w)) ->
        recipe_id ∉ download_queue p)
  /\ (forall r1 r2 r3 : str,
        ScrapeState.pending (state w) = {[r1; r2]} ->
        ScrapeState.failed (state w) = {[r3]} ->
        r1 <> r2 -> download_queue p ≡ₚ [r1; r2]).
Proof.
  intros cfg p Hne.
  assert (seed cfg w idle
          = (say [InfoResuming (size (ScrapeState.pending (state w)))] w,
             mkPipeline (elements (ScrapeState.pending (state w))) true false))
    as Hseed.
  { unfold seed, cfg. cbn [mode].
    rewrite bool_decide_eq_true_2 by done.
    rewrite (bool_decide_eq_false_2 _ Hne). reflexivity. }
  unfold p. rewrite Hseed. cbn [fst snd download_queue discovery_done
                                 discovery_thread say state].
  split; [done|]. split; [apply NoDup_elements|].
  split; [intros; apply elem_of_elements|].
  split.
  - intros rid _ Hnp Hin. by apply elem_of_elements in Hin.
  - intros r1 r2 r3 Hp _ Hr. rewrite Hp.
    apply NoDup_Permutation; [apply NoDup_elements| |].
    + apply NoDup_cons. split; [|apply NoDup_singleton].
      by rewrite list_elem_of_singleton.
    + intros x. rewrite elem_of_elements. set_solver.
Qed.

End Resume.

Lemma resume_seeds_pending_witness :
  let r1 := Py.lit "r1" in
  let r2 := Py.lit "r2" in
  let r3 := Py.lit "r3" in
  let st := @ScrapeState.mk text_lib {[r1; r2; r3]} {[r1; r2]} ∅ {[r3]}
                            (ScrapeState.Stamp epoch) in
  let w := RecipeScraper.mkWorld (mkDisk true ∅) st no_stats [] 0 in
  let cfg := mkConfig default_state_file CONTINUE [] 2 10 in
  ScrapeState.pending (RecipeScraper.state w) <> ∅
  /\ r1 <> r2
  /\ RecipeScraper.download_queue (RecipeScraper.seed cfg w RecipeScraper.idle).2
     ≡ₚ [r1; r2]
  /\ (r3 ∉ RecipeScraper.download_queue (RecipeScraper.seed cfg w RecipeScraper.idle).2).
Proof.
  intros r1 r2 r3 st w cfg.
  assert (r1 <> r2) as H12 by (vm_compute; congruence).
  assert (r3 <> r1) as H31 by (vm_compute; congruence).
  assert (r3 <> r2) as H32 by (vm_compute; congruence).
  clearbody r1 r2 r3.
  assert (ScrapeState.pending (RecipeScraper.state w) <> ∅) as Hne.
  { unfold w, st. cbn [RecipeScraper.state ScrapeState.pending]. set_solver. }
  assert (r3 ∈ ScrapeState.failed (RecipeScraper.state w)) as Hf.
  { unfold w, st. cbn [RecipeScraper.state ScrapeState.failed]. set_solver. }
  assert (r3 ∉ ScrapeState.pending (RecipeScraper.state w)) as Hnp.
  { unfold w, st. cbn [RecipeScraper.state ScrapeState.pending]. set_solver. }
  destruct (@resume_seeds_pending text_lib default_state_file [] 2 10 w Hne)
    as (_ & _ & _ & Hfailed & Hex).
  split; [exact Hne|]. split; [exact H12|].
  split; [exact (Hex r1 r2 r3 eq_refl eq_refl H12)|exact (Hfailed r3 Hf Hnp)].
Defined.

(** ** The discovery traversal *)

Section Discovery.
Import Py AlgoliaClient.

Lemma turn_queue query prefix rest g :
  prefix_queue (turn query prefix rest g) =
    let (ids, total_hits) := query (length (queried g)) prefix in
    if under_covered prefix ids total_hits then rest ++ extensions prefix else rest.
Proof.
  unfold turn. destruct (query _ prefix) as [ids total].
  by destruct (foldl emit _ ids).
Qed.

Lemma turn_queried query prefix rest g :
  queried (turn query prefix rest g) = queried g ++ [prefix].
Proof.
  unfold turn. destruct (query _ prefix) as [ids total].
  by destruct (foldl emit _ ids).
Qed.

Lemma under_covered_spec prefix ids total_hits :
  under_covered prefix ids total_hits = true <->
  HITS_PER_PAGE <= Z.of_nat (length ids) /\ HITS_PER_PAGE < total_hits
  /\ Z.of_nat (length prefix) + 1 <= MAX_DEPTH.
Proof.
  unfold under_covered. rewrite !andb_true_iff, Z.leb_le, !Z.ltb_lt. lia.
Qed.

(** C5. One turn of the traversal on the prefix at the head of the queue:
    the single-character extensions go to the back of the queue exactly when
    the answer has at least 1000 hits, reports more than 1000 in total and the
    extended prefix is at most 3 long, and in that case the queue gains one
    extension per alphabet character, in alphabet order, and nothing else;
    otherwise it gains nothing. The prefix "a" with 1000 hits of 2500 gains
    its 68 extensions. *)
Theorem turn_subdivides query prefix rest g :
  let answer := query (length (queried g)) prefix in
  let extended := HITS_PER_PAGE <= Z.of_nat (length answer.1)
                  /\ HITS_PER_PAGE < answer.2
                  /\ Z.of_nat (length prefix) + 1 <= MAX_DEPTH in
  HITS_PER_PAGE = 1000 /\ MAX_DEPTH = 3 /\ length SEARCH_CHARS = 68%nat
  /\ NoDup SEARCH_CHARS
  /\ (extended ->
      prefix_queue (turn query prefix rest g)
      = rest ++ ((fun c => prefix ++ [c]) <$> SEARCH_CHARS))
  /\ (~ extended -> prefix_queue (turn query prefix rest g) = rest)
  /\ (prefix = lit "a" -> length answer.1 = 1000%nat -> answer.2 = 2500 ->
      prefix_queue (turn query prefix rest g)
      = rest ++ ((fun c => lit "a" ++ [c]) <$> SEARCH_CHARS)).
Proof.
  intros answer extended.
  assert (extended <-> under_covered prefix answer.1 answer.2 = true) as Hext.
  { unfold extended. by rewrite under_covered_spec. }
  assert (prefix_queue (turn query prefix rest g)
          = if under_covered prefix answer.1 answer.2
            then rest ++ extensions prefix else rest) as Hq.
  { rewrite turn_queue. unfold answer. by destruct (query _ prefix). }
  split; [done|]. split; [done|]. split; [done|].
  split; [apply (bool_decide_unpack _); vm_compute; exact I|].
  split; [|split].
  - intros He. apply Hext in He. by rewrite Hq, He.
  - intros He. rewrite Hq.
    destruct (under_covered prefix answer.1 answer.2); [|done].
    destruct He. by apply Hext.
  - intros -> Hn Ht. rewrite Hq.
    assert (under_covered (lit "a") answer.1 answer.2 = true) as ->; [|done].
    apply under_covered_spec. rewrite Hn, Ht. by vm_compute.
Qed.

(** *** Termination and the number of queries *)

(** The prefixes of length [n] over the alphabet. *)
Fixpoint words (n : nat) : list str :=
  match n with
  | O => [[]]
  | S n' => words n' ≫= extensions
  end.

Definition all_prefixes : list str := words 1 ++ words 2 ++ words 3.

Lemma length_extensions w : length (extensions w) = length SEARCH_CHARS.
Proof. unfold extensions. apply length_fmap. Qed.

Lemma length_bind_extensions (l : list str) :
  length (l ≫= extensions) = (length l * length SEARCH_CHARS)%nat.
Proof.
  induction l as [|w l IH]; [done|].
  change ((w :: l) ≫= extensions) with (extensions w ++ (l ≫= extensions)).
  rewrite length_app, IH, length_extensions. cbn [length]. lia.
Qed.

Lemma length_words n : length (words n) = (length SEARCH_CHARS ^ n)%nat.
Proof.
  induction n as [|n IH]; [done|].
  cbn [words]. rewrite length_bind_extensions, IH. cbn [Nat.pow]. lia.
Qed.

Lemma length_all_prefixes :
  length all_prefixes
  = (length SEARCH_CHARS + length SEARCH_CHARS ^ 2 + length SEARCH_CHARS ^ 3)%nat.
Proof.
  unfold all_prefixes. rewrite !length_app, !length_words.
  generalize (length SEARCH_CHARS). intros a. cbn [Nat.pow]. lia.
Qed.

Lemma words_length n w : w ∈ words n -> length w = n.
Proof.
  revert w. induction n as [|n IH]; intros w Hw.
  - apply list_elem_of_singleton in Hw. by subst.
  - cbn [words] in Hw. apply list_elem_of_bind in Hw as (v & Hw & Hv).
    unfold extensions in Hw. apply list_elem_of_fmap in Hw as (c & -> & _).
    rewrite length_app, (IH _ Hv). cbn [length]. lia.
Qed.

Lemma words_extend n w c : w ∈ words n -> c ∈ SEARCH_CHARS -> w ++ [c] ∈ words (S n).
Proof.
  intros Hw Hc. cbn [words]. apply list_elem_of_bind. exists w. split; [|done].
  unfold extensions. apply list_elem_of_fmap. by exists c.
Qed.

Lemma all_prefixes_elem w :
  w ∈ all_prefixes <-> w ∈ words 1 \/ w ∈ words 2 \/ w ∈ words 3.
Proof. unfold all_prefixes. by rewrite !elem_of_app. Qed.

Lemma all_prefixes_nonempty w : w ∈ all_prefixes -> w <> [].
Proof.
  intros Hw ->. apply all_prefixes_elem in Hw as [Hw|[Hw|Hw]];
    by apply words_length in Hw.
Qed.

Lemma all_prefixes_extend w c :
  w ∈ all_prefixes -> (Z.of_nat (length w) <? MAX_DEPTH) = true ->
  c ∈ SEARCH_CHARS -> w ++ [c] ∈ all_prefixes.
Proof.
  intros Hw Hlen Hc. apply Z.ltb_lt in Hlen. unfold MAX_DEPTH in Hlen.
  apply all_prefixes_elem.
  apply all_prefixes_elem in Hw as [Hw|[Hw|Hw]].
  - right; left. by apply words_extend.
  - right; right. by apply words_extend.
  - apply words_length in Hw. lia.
Qed.

Lemma SEARCH_CHARS_NoDup : NoDup SEARCH_CHARS.
Proof. apply (bool_decide_unpack _). vm_compute. exact I. Qed.

(** What holds of the queue and of the prefixes queried so far, at every
    turn: no prefix occurs twice among them, each is a word of one to three
    alphabet characters, and the parent of each has been queried. *)
Record traversal_inv (g : gen) : Prop := {
  inv_NoDup : NoDup (queried g ++ prefix_queue g);
  inv_words : forall w, w ∈ queried g ++ prefix_queue g -> w ∈ all_prefixes;
  inv_parent : forall w c,
    w <> [] -> w ++ [c] ∈ queried g ++ prefix_queue g -> w ∈ queried g;
}.

Lemma start_inv : traversal_inv start.
Proof.
  split; cbn [queried prefix_queue start app].
  - apply NoDup_fmap_2; [|apply SEARCH_CHARS_NoDup]. by intros ?? [= ->].
  - intros w Hw. apply list_elem_of_fmap in Hw as (c & -> & Hc).
    apply all_prefixes_elem. left.
    by apply (words_extend 0 []); [apply list_elem_of_singleton|].
  - intros w c Hw Hin. apply list_elem_of_fmap in Hin as (c' & Heq & _).
    destruct w; [done|]. by destruct w.
Qed.

Lemma extensions_NoDup prefix : NoDup (extensions prefix).
Proof.
  unfold extensions. apply NoDup_fmap_2; [|apply SEARCH_CHARS_NoDup].
  intros c c' Heq. by apply app_inj_tail in Heq as [_ ->].
Qed.

Lemma turn_queue_cases query prefix rest g :
  prefix_queue (turn query prefix rest g) = rest
  \/ (prefix_queue (turn query prefix rest g) = rest ++ extensions prefix
      /\ (Z.of_nat (length prefix) <? MAX_DEPTH) = true).
Proof.
  rewrite turn_queue. destruct (query _ prefix) as [ids total].
  destruct (under_covered prefix ids total) eqn:Hu; [right|by left].
  split; [done|]. unfold under_covered in Hu.
  by apply andb_true_iff in Hu as [_ ?].
Qed.

Lemma turn_inv query prefix rest g :
  prefix_queue g = prefix :: rest ->
  traversal_inv g -> traversal_inv (turn query prefix rest g).
Proof.
  intros Hq [Hnd Hw Hp]. rewrite Hq in Hnd, Hw, Hp.
  assert (forall x, x ∈ (queried g ++ [prefix]) ++ rest <->
                    x ∈ queried g ++ prefix :: rest) as Hsame.
  { intros x. by rewrite <- app_assoc. }
  assert (prefix ∈ all_prefixes) as Hpre.
  { apply Hw. apply elem_of_app. right. by left. }
  assert (prefix ∉ queried g) as Hfresh.
  { apply NoDup_app in Hnd as (_ & Hdis & _). intros Hin.
    apply (Hdis _ Hin). by left. }
  destruct (turn_queue_cases query prefix rest g) as [Hrest|[Hext Hdepth]];
    split; rewrite turn_queried; rewrite ?Hrest, ?Hext.
  - by rewrite <- app_assoc.
  - intros w Hin. by apply Hw, Hsame.
  - intros w c Hne Hin. apply elem_of_app. left.
    apply (Hp _ c); [done|by apply Hsame].
  - rewrite app_assoc. apply NoDup_app. split; [by rewrite <- app_assoc|].
    split; [|apply extensions_NoDup].
    intros x Hx Hin. apply Hsame in Hx.
    unfold extensions in Hin. apply list_elem_of_fmap in Hin as (c & -> & _).
    apply Hfresh, (Hp _ c); [by apply all_prefixes_nonempty|done].
  - intros w Hin. rewrite app_assoc in Hin.
    apply elem_of_app in Hin as [Hin|Hin]; [by apply Hw, Hsame|].
    unfold extensions in Hin. apply list_elem_of_fmap in Hin as (c & -> & Hc).
    by apply all_prefixes_extend.
  - intros w c Hne Hin. rewrite app_assoc in Hin. apply elem_of_app.
    apply elem_of_app in Hin as [Hin|Hin].
    + left. apply (Hp _ c); [done|by apply Hsame].
    + unfold extensions in Hin. apply list_elem_of_fmap in Hin as (c' & Heq & _).
      apply app_inj_tail in Heq as [-> _]. right. by left.
Qed.

Lemma inv_bound g :
  traversal_inv g ->
  (length (queried g) + length (prefix_queue g) <= length all_prefixes)%nat.
Proof.
  intros [Hnd Hw _]. rewrite <- length_app.
  apply submseteq_length, NoDup_submseteq; done.
Qed.

Lemma loop_terminates query fuel g :
  traversal_inv g ->
  (length all_prefixes < fuel + length (queried g))%nat ->
  exists g', loop query fuel g = Some g' /\ traversal_inv g'
             /\ prefix_queue g' = [].
Proof.
  revert g. induction fuel as [|fuel IH]; intros g Hinv Hfuel.
  - pose proof (inv_bound g Hinv) as Hb. cbn [loop].
    destruct (prefix_queue g) as [|prefix rest] eqn:Hq; [by exists g|].
    cbn [length] in Hb. lia.
  - cbn [loop]. destruct (prefix_queue g) as [|prefix rest] eqn:Hq; [by exists g|].
    apply IH; [by apply turn_inv|].
    rewrite turn_queried, length_app. cbn [length]. lia.
Qed.

(** C6. The traversal ends within one turn per word of one to three alphabet
    characters, whatever the answers: with that many turns allowed or more it
    leaves the loop with an empty queue. No prefix is passed to
    [_query_prefix] twice, and the number of queries is at most
    [a + a^2 + a^3] for the alphabet size [a], which is 68. *)
Theorem discover_all_bounded query extra :
  let a := length SEARCH_CHARS in
  let bound := (a + a ^ 2 + a ^ 3)%nat in
  a = 68%nat
  /\ exists g,
       discover_all true query (S bound + extra) = Some (Traversed g)
       /\ prefix_queue g = []
       /\ NoDup (queried g)
       /\ (length (queried g) <= bound)%nat.
Proof.
  intros a bound. split; [reflexivity|].
  destruct (loop_terminates query (S bound + extra) start start_inv)
    as (g & Hloop & Hinv & Hq).
  { rewrite length_all_prefixes. fold a. fold bound. lia. }
  exists g. unfold discover_all. rewrite Hloop. split; [done|]. split; [done|].
  split.
  - destruct Hinv as [Hnd _ _]. by apply NoDup_app in Hnd as (? & _).
  - pose proof (inv_bound g Hinv) as Hb. rewrite length_all_prefixes in Hb.
    fold a in Hb. fold bound in Hb. lia.
Qed.

End Discovery.

(** An answer of 1000 distinct hits with 2500 reported. *)
Definition thousand_hits : AlgoliaClient.oracle :=
  fun _ _ => ((fun i => [N.of_nat i]) <$> seq 0 1000, 2500).

Lemma turn_subdivides_witness :
  let prefix := Py.lit "a" in
  let g := AlgoliaClient.mkGen [prefix] ∅ [] [] in
  length (AlgoliaClient.prefix_queue
            (AlgoliaClient.turn thousand_hits prefix [] g)) = 68%nat
  /\ AlgoliaClient.prefix_queue
       (AlgoliaClient.turn (fun _ _ => ([], 0)) prefix [] g) = [].
Proof.
  intros prefix g.
  pose proof (turn_subdivides thousand_hits prefix [] g)
    as (_ & _ & _ & _ & _ & _ & Ha).
  pose proof (turn_subdivides (fun _ _ => ([], 0)) prefix [] g)
    as (_ & _ & _ & _ & _ & Hn & _).
  split.
  - rewrite (Ha eq_refl ltac:(vm_compute; reflexivity) eq_refl).
    vm_compute. reflexivity.
  - apply Hn. cbn [fst snd length]. unfold AlgoliaClient.HITS_PER_PAGE. lia.
Defined.

(** ** The retry policy of a download *)

Section Download.
Context `{PyLib}.
Import Py RecipeScraper.








End Download.

(** A budget of two retries: two passes raise, the third gives an incomplete
    record that is written. *)
Definition flaky_site : RecipeScraper.site :=
  fun n => match n with
           | 0%nat | 1%nat => RecipeScraper.Raises
           | _ => RecipeScraper.Parsed
                    (Recipe.mk Py.VNone Py.VNone Py.VNone Py.VNone Py.VNone Py.VNone
                               (Py.VList []) (Py.VList []) (Py.VList []) (Py.VList [])
                               (Py.VDict [])) false
           end.


(** The third pass of [flaky_site] is the last: the download succeeds, the
    warning is logged and the record is on disk. *)
Example flaky_download :
  let cfg := mkConfig default_state_file SKIP_EXISTING [] 2 10 in
  let w := @RecipeScraper.mkWorld text_lib (mkDisk true ∅)
             (ScrapeState.empty epoch) no_stats [] 0 in
  let r := RecipeScraper._download_recipe cfg flaky_site (Py.lit "r1") w in
  r.1 = true /\ RecipeScraper.fetches r.2 = 3%nat
  /\ RecipeScraper.WarningEmpty (Py.lit "r1") ∈ RecipeScraper.log r.2
  /\ StateManager.recipe_exists (RecipeScraper.disk r.2) (Py.lit "r1") = true.
Proof.
  cbn zeta. split; [|split; [|split]]; try (vm_compute; reflexivity).
  vm_compute. do 5 right. left.
Qed.

(** ** A run on an explicit list of identifiers *)

Section Specific.
Context `{PyLib}.
Import Py RecipeScraper.

(** The recovery file is not a record file: its name in the output directory
    does not start with the letter of the identifiers. The default,
    [.scraper_state.json], and every file outside the output directory are
    such. *)
Definition apart (cfg : Config) : Prop :=
  forall name, state_file cfg = OutputFile name -> startswith (lit "r") name = false.

Lemma default_apart sf_mode ids mr si :
  apart (mkConfig default_state_file sf_mode ids mr si).
Proof. intros name [= <-]. reflexivity. Qed.




(** What [_download_recipe] can change: nothing of the crawl state or the
    counters, and on disk at most the record file of the identifier. *)
Lemma attempts_frame cfg s recipe_id n attempt w :
  let r := attempts cfg s recipe_id n attempt w in
  state r.2 = state w /\ stats r.2 = stats w
  /\ forall p, p <> StateManager.recipe_path recipe_id ->
       files (disk r.2) !! p = files (disk w) !! p.
Proof.
  revert attempt w. induction n as [|n IH]; intros attempt w; [done|].
  assert (forall w1, state w1 = state w -> stats w1 = stats w ->
            disk w1 = disk w ->
            let r := attempts cfg s recipe_id n (attempt + 1) w1 in
            state r.2 = state w /\ stats r.2 = stats w
            /\ forall p, p <> StateManager.recipe_path recipe_id ->
                 files (disk r.2) !! p = files (disk w) !! p) as Hagain.
  { intros w1 Hst Hstats Hdisk. rewrite <- Hst, <- Hstats, <- Hdisk. apply IH. }
  assert (forall w1, state w1 = state w -> stats w1 = stats w ->
            disk w1 = disk w ->
            let r := on_exception cfg recipe_id attempt
                       (attempts cfg s recipe_id n (attempt + 1)) (pair false) w1 in
            state r.2 = state w /\ stats r.2 = stats w
            /\ forall p, p <> StateManager.recipe_path recipe_id ->
                 files (disk r.2) !! p = files (disk w) !! p) as Hexc.
  { intros w1 Hst Hstats Hdisk. unfold on_exception.
    destruct (attempt <? max_retries cfg); [by apply Hagain|].
    cbn [fst snd say state stats disk]. by rewrite Hst, Hstats, Hdisk. }
  cbn [attempts]. destruct (s (fetches w)) as [|page save_raises].
  - by apply Hexc.
  - cbn zeta.
    destruct (negb (Recipe.is_complete (parse_recipe page recipe_id))
              && (attempt <? max_retries cfg)); [by apply Hagain|].
    destruct save_raises.
    + apply Hexc; by destruct (Recipe.is_complete _).
    + cbn [fst snd say with_disk state stats disk].
      assert (forall w2 : World,
                (if Recipe.is_complete (parse_recipe page recipe_id)
                 then fetched (say [Get recipe_id] w)
                 else say [WarningEmpty recipe_id] (fetched (say [Get recipe_id] w)))
                = w2 ->
                state w2 = state w /\ stats w2 = stats w /\ disk w2 = disk w) as Hw2.
      { intros w2 <-. by destruct (Recipe.is_complete _). }
      destruct (Hw2 _ eq_refl) as (-> & -> & ->).
      split; [done|]. split; [done|].
      intros p Hp. cbn [StateManager.save_recipe files parse_recipe Recipe.id fstring].
      by rewrite lookup_insert_ne.
Qed.




End Specific.


(** * Further properties of the state tracker *)

(** ** The startup scan in closed form *)

Section ScanClosedForm.
Context `{PyLib}.
Import Py StateManager.

(** The identifiers of the entries whose verdict satisfies [P]. *)
Definition ids_with (P : verdict -> bool) (l : list (str * file)) : gset str :=
  list_to_set (omap (fun e => if P (verdict_of e) then Some (stem e.1) else None) l).

Definition is_scanned (v : verdict) : bool :=
  match v with Skipped => false | _ => true end.
Definition is_complete_v (v : verdict) : bool :=
  match v with Complete => true | _ => false end.
Definition is_incomplete_v (v : verdict) : bool :=
  match v with Incomplete => true | _ => false end.
Definition is_kept_v (v : verdict) : bool :=
  match v with Complete | Corrupt => true | _ => false end.

Lemma ids_with_cons P e l :
  ids_with P (e :: l) =
    (if P (verdict_of e) then {[stem e.1]} else ∅) ∪ ids_with P l.
Proof.
  unfold ids_with. cbn [omap list_omap].
  destruct (P (verdict_of e)); cbn [list_to_set]; set_solver.
Qed.

Lemma ids_with_scanned P l x :
  (forall v, P v = true -> is_scanned v = true) ->
  x ∈ ids_with P l -> x ∈ scanned_ids l.
Proof.
  intros HP Hx. unfold ids_with in Hx. apply elem_of_list_to_set in Hx.
  apply list_elem_of_omap in Hx as (e & He & Hx).
  apply list_elem_of_omap. exists e. split; [done|].
  destruct (P (verdict_of e)) eqn:HPe; [|done].
  apply HP in HPe. unfold verdict_of in HPe.
  by destruct (startswith (lit ".") e.1).
Qed.

Lemma verdict_not_skipped e :
  is_scanned (verdict_of e) = true -> startswith (lit ".") e.1 = false.
Proof. unfold verdict_of. by destruct (startswith (lit ".") e.1). Qed.

Lemma foldl_scan_closed l st :
  NoDup (scanned_ids l) ->
  let st' := foldl scan_file st l in
  ScrapeState.discovered st' = ScrapeState.discovered st ∪ ids_with is_scanned l
  /\ ScrapeState.completed st' = ScrapeState.completed st ∪ ids_with is_kept_v l
  /\ ScrapeState.pending st'
     = (ScrapeState.pending st ∖ ids_with is_complete_v l) ∪ ids_with is_incomplete_v l
  /\ ScrapeState.failed st' = ScrapeState.failed st
  /\ ScrapeState.last_updated st' = ScrapeState.last_updated st.
Proof.
  revert st. induction l as [|e l IH]; intros st Hnd.
  - cbn. unfold ids_with. cbn. set_solver.
  - rewrite scanned_ids_cons in Hnd. cbn [foldl].
    assert (NoDup (scanned_ids l)) as Hnd' by by apply NoDup_app in Hnd as (_ & _ & ?).
    destruct (IH (scan_file st e) Hnd') as (Hd & Hc & Hp & Hf & Ht).
    cbn zeta. rewrite Hd, Hc, Hp, Hf, Ht, !ids_with_cons.
    rewrite scan_file_verdict. cbn zeta.
    assert (is_scanned (verdict_of e) = true ->
            stem e.1 ∉ ids_with is_complete_v l) as Hfresh.
    { intros Hs Hin. apply verdict_not_skipped in Hs. rewrite Hs in Hnd.
      cbn [app] in Hnd. apply NoDup_cons in Hnd as [Hnot _]. apply Hnot.
      apply (ids_with_scanned is_complete_v); [by intros []|done]. }
    destruct (verdict_of e) eqn:Hv; cbn;
      (split; [set_solver|split; [set_solver|split; [|done]]]).
    + set_solver.
    + set_solver.
    + specialize (Hfresh eq_refl). set_solver.
    + set_solver.
Qed.

Lemma ids_with_disjoint P Q l :
  (forall v, P v = true -> is_scanned v = true) ->
  (forall v, Q v = true -> is_scanned v = true) ->
  (forall v, P v = true -> Q v = false) ->
  NoDup (scanned_ids l) -> ids_with P l ## ids_with Q l.
Proof.
  intros HP HQ HPQ. induction l as [|e l IH]; intros Hnd.
  - unfold ids_with. cbn. set_solver.
  - rewrite scanned_ids_cons in Hnd. rewrite !ids_with_cons.
    assert (NoDup (scanned_ids l)) as Hnd' by by apply NoDup_app in Hnd as (_ & _ & ?).
    specialize (IH Hnd').
    assert (is_scanned (verdict_of e) = true ->
            (stem e.1 ∉ ids_with P l) /\ (stem e.1 ∉ ids_with Q l)) as Hfresh.
    { intros Hs. apply verdict_not_skipped in Hs. rewrite Hs in Hnd.
      cbn [app] in Hnd. apply NoDup_cons in Hnd as [Hnot _].
      split; intros Hin; apply Hnot;
        [by apply (ids_with_scanned P)|by apply (ids_with_scanned Q)]. }
    destruct (P (verdict_of e)) eqn:HPe; destruct (Q (verdict_of e)) eqn:HQe.
    + apply HPQ in HPe. congruence.
    + destruct (Hfresh (HP _ HPe)). set_solver.
    + destruct (Hfresh (HQ _ HQe)). set_solver.
    + set_solver.
Qed.

(** X1. What [_scan_existing_recipes] computes on an existing output
    directory, whatever the order in which the directory lists its files:
    every scanned identifier joins [discovered]; those of complete and of
    unreadable records join [completed]; [pending] loses the complete ones and
    gains the incomplete ones; [failed] and the timestamp are untouched. *)
Theorem scan_closed_form d st :
  output_is_dir d = true ->
  let l := glob_json d in
  let st' := _scan_existing_recipes d st in
  ScrapeState.discovered st' = ScrapeState.discovered st ∪ ids_with is_scanned l
  /\ ScrapeState.completed st' = ScrapeState.completed st ∪ ids_with is_kept_v l
  /\ ScrapeState.pending st'
     = (ScrapeState.pending st ∖ ids_with is_complete_v l) ∪ ids_with is_incomplete_v l
  /\ ScrapeState.failed st' = ScrapeState.failed st
  /\ ScrapeState.last_updated st' = ScrapeState.last_updated st.
Proof.
  intros Hdir l st'. unfold st', _scan_existing_recipes. rewrite Hdir.
  apply foldl_scan_closed, NoDup_scanned_ids.
Qed.

(** X2. A manager started without a recovery file holds a consistent state:
    the two exclusions and the superset invariant hold, nothing is failed,
    and [pending] is exactly the set of identifiers whose stored record is
    incomplete. *)
Theorem init_without_recovery_file cfg now d :
  files d !! state_file cfg = None ->
  let st := init cfg now d in
  invariants st
  /\ ScrapeState.failed st = ∅
  /\ ScrapeState.discovered st = ScrapeState.completed st ∪ ScrapeState.pending st
  /\ (output_is_dir d = true ->
      ScrapeState.pending st = ids_with is_incomplete_v (glob_json d))
  /\ (output_is_dir d = false -> st = ScrapeState.empty now).
Proof.
  intros Hfile st.
  assert (_load_state cfg now d (ScrapeState.empty now) = ScrapeState.empty now)
    as Hload by (unfold _load_state; by rewrite Hfile).
  unfold st, init. rewrite Hload. unfold _scan_existing_recipes.
  destruct (output_is_dir d) eqn:Hdir.
  - destruct (foldl_scan_closed (glob_json d) (ScrapeState.empty now)
                (NoDup_scanned_ids d)) as (Hd & Hc & Hp & Hf & _).
    cbn zeta in *. cbn [ScrapeState.empty ScrapeState.discovered
      ScrapeState.completed ScrapeState.pending ScrapeState.failed] in *.
    pose proof (ids_with_disjoint is_kept_v is_incomplete_v (glob_json d)
                  ltac:(by intros []) ltac:(by intros []) ltac:(by intros [])
                  (NoDup_scanned_ids d)) as Hdisj.
    assert (ids_with is_scanned (glob_json d)
            = ids_with is_kept_v (glob_json d) ∪ ids_with is_incomplete_v (glob_json d))
      as Hall.
    { generalize (glob_json d). intros l. induction l as [|e l IH].
      - unfold ids_with. cbn. set_solver.
      - rewrite !ids_with_cons, IH. destruct (verdict_of e); cbn; set_solver. }
    unfold invariants, exclusive, covered. rewrite Hd, Hc, Hp, Hf, Hall.
    repeat split; try done; set_solver.
  - unfold invariants, exclusive, covered. cbn. repeat split; try done; set_solver.
Qed.

End ScanClosedForm.

Lemma init_without_recovery_file_witness :
  let cfg := mkConfig default_state_file SKIP_EXISTING [] 2 10 in
  let d := mkDisk true {[ OutputFile (Py.lit "r1.json") := FileJson empty_record ]} in
  files d !! state_file cfg = None
  /\ invariants (@StateManager.init text_lib cfg epoch d).
Proof.
  intros cfg d.
  assert (files d !! state_file cfg = None) as Hfile
    by (apply lookup_singleton_ne; done).
  split; [exact Hfile|].
  exact (proj1 (@init_without_recovery_file text_lib cfg epoch d Hfile)).
Defined.

Lemma scan_closed_form_witness :
  let d := mkDisk true {[ OutputFile (Py.lit "r1.json") := FileJson empty_record ]} in
  output_is_dir d = true
  /\ ScrapeState.failed (@StateManager._scan_existing_recipes text_lib d
                           (ScrapeState.empty epoch)) = ∅.
Proof.
  intros d. split; [reflexivity|].
  exact (proj1 (proj2 (proj2 (proj2
    (@scan_closed_form text_lib d (ScrapeState.empty epoch) eq_refl))))).
Defined.

(** ** Record files *)

Section RecordFiles.
Context `{PyLib}.
Import Py StateManager.

(** A record as [from_dict] rebuilds it: an empty or missing list field is
    the empty list, an empty or missing [nutritions] the empty dict. *)
Definition canonical (r : Recipe.t) : Recipe.t :=
  Recipe.mk (Recipe.id r) (Recipe.title r) (Recipe.source_url r)
            (Recipe.language r) (Recipe.rating_score r) (Recipe.rating_count r)
            (or_ (Recipe.tm_versions r) (VList []))
            (or_ (Recipe.ingredients r) (VList []))
            (or_ (Recipe.steps r) (VList []))
            (or_ (Recipe.tags r) (VList []))
            (or_ (Recipe.nutritions r) (VDict [])).

(** The fields of a record that the parser builds: lists and a dict. *)
Definition shaped (r : Recipe.t) : Prop :=
  (exists l, Recipe.tm_versions r = VList l)
  /\ (exists l, Recipe.ingredients r = VList l)
  /\ (exists l, Recipe.steps r = VList l)
  /\ (exists l, Recipe.tags r = VList l)
  /\ (exists items, Recipe.nutritions r = VDict items).

Lemma or_list_id l : or_ (VList l) (VList []) = VList l.
Proof. by destruct l. Qed.

Lemma or_dict_id items : or_ (VDict items) (VDict []) = VDict items.
Proof. by destruct items. Qed.

Lemma canonical_shaped r : shaped r -> canonical r = r.
Proof.
  destruct r. unfold shaped, canonical. cbn.
  intros ([? ->] & [? ->] & [? ->] & [? ->] & [? ->]).
  by rewrite !or_list_id, or_dict_id.
Qed.

Lemma truthy_or a b : truthy (or_ a b) = truthy a || truthy b.
Proof. unfold or_. by destruct (truthy a) eqn:Ha. Qed.

Lemma canonical_complete r :
  Recipe.is_complete (canonical r) = Recipe.is_complete r.
Proof.
  unfold Recipe.is_complete, canonical. cbn [Recipe.ingredients Recipe.steps].
  rewrite !truthy_or. cbn [truthy]. by rewrite !orb_false_r.
Qed.

Lemma from_dict_to_dict_recipe r :
  Recipe.from_dict (Recipe.to_dict r) = Some (canonical r).
Proof.
  destruct r as [a b c d e f g h i j k].
  unfold Recipe.from_dict, Recipe.to_dict, canonical.
  cbn [Recipe.id Recipe.title Recipe.source_url Recipe.language
       Recipe.rating_score Recipe.rating_count Recipe.tm_versions
       Recipe.ingredients Recipe.steps Recipe.tags Recipe.nutritions].
  repeat match goal with
         | |- context [get ?doc ?key ?dflt] =>
             let v := eval vm_compute in (get doc key dflt) in
             change (get doc key dflt) with v
         end.
  cbn [mbind option_bind]. do 2 f_equal.
  unfold or_. destruct (truthy g) eqn:Hg; [by rewrite Hg|done].
Qed.

(** X3. A record written by [save_recipe] is read back by [load_recipe]
    under its identifier as the same record, up to empty list fields being
    the empty list: exactly the same for a record whose list fields are lists
    and whose [nutritions] is a dict, and in every case with the same
    completeness. *)
Theorem record_round_trip r recipe_id d :
  Recipe.id r = VStr recipe_id ->
  load_recipe (save_recipe r d) recipe_id = Some (canonical r)
  /\ Recipe.is_complete (canonical r) = Recipe.is_complete r
  /\ (shaped r -> load_recipe (save_recipe r d) recipe_id = Some r)
  /\ recipe_exists (save_recipe r d) recipe_id = true.
Proof.
  intros Hid.
  assert (load_recipe (save_recipe r d) recipe_id = Some (canonical r)) as Hload.
  { unfold load_recipe, save_recipe. rewrite Hid. cbn [fstring files].
    rewrite lookup_insert_eq. apply from_dict_to_dict_recipe. }
  split; [done|]. split; [apply canonical_complete|]. split.
  - intros Hs. by rewrite Hload, canonical_shaped.
  - unfold recipe_exists, save_recipe. rewrite Hid. cbn [fstring files].
    rewrite lookup_insert_eq. by apply bool_decide_eq_true.
Qed.

Lemma stem_record_file recipe_id :
  recipe_id <> [] -> stem (recipe_id ++ lit ".json") = recipe_id.
Proof. apply stem_json. Qed.




End RecordFiles.

(** ** The lifecycle marks *)

Section Marks.
Context `{PyLib}.
Import StateManager.

Lemma state_eq (a b : ScrapeState.t) :
  ScrapeState.discovered a = ScrapeState.discovered b ->
  ScrapeState.pending a = ScrapeState.pending b ->
  ScrapeState.completed a = ScrapeState.completed b ->
  ScrapeState.failed a = ScrapeState.failed b ->
  ScrapeState.last_updated a = ScrapeState.last_updated b -> a = b.
Proof. destruct a, b. cbn. by intros -> -> -> -> ->. Qed.

(** X5. The marks are idempotent and marks of different identifiers
    commute. A success after a failure clears the failure: the identifier is
    completed and neither pending nor failed. A failure after a success does
    not revoke it: the identifier is then both completed and failed, and not
    pending. *)
Theorem marks_compose a b st :
  (mark_discovered a (mark_discovered a st) = mark_discovered a st
   /\ mark_pending a (mark_pending a st) = mark_pending a st
   /\ mark_completed a (mark_completed a st) = mark_completed a st
   /\ mark_failed a (mark_failed a st) = mark_failed a st)
  /\ (a <> b ->
      mark_completed a (mark_failed b st) = mark_failed b (mark_completed a st)
      /\ mark_completed a (mark_pending b st) = mark_pending b (mark_completed a st)
      /\ mark_failed a (mark_pending b st) = mark_pending b (mark_failed a st))
  /\ (let st' := mark_completed a (mark_failed a st) in
      a ∈ ScrapeState.completed st' /\ (a ∉ ScrapeState.failed st')
      /\ (a ∉ ScrapeState.pending st'))
  /\ (let st' := mark_failed a (mark_completed a st) in
      a ∈ ScrapeState.completed st' /\ a ∈ ScrapeState.failed st'
      /\ (a ∉ ScrapeState.pending st')).
Proof.
  split; [|split; [|split]].
  - repeat split; apply state_eq; cbn; set_solver.
  - intros Hab. repeat split; apply state_eq; cbn; set_solver.
  - cbn. set_solver.
  - cbn. set_solver.
Qed.

End Marks.

Lemma marks_compose_witness :
  let a := Py.lit "r1" in
  let b := Py.lit "r2" in
  let st := @ScrapeState.empty text_lib epoch in
  a <> b
  /\ StateManager.mark_completed a (StateManager.mark_failed b st)
     = StateManager.mark_failed b (StateManager.mark_completed a st).
Proof.
  intros a b st.
  assert (a <> b) as Hab by (vm_compute; congruence).
  split; [exact Hab|].
  exact (proj1 (proj1 (proj2 (@marks_compose text_lib a b st)) Hab)).
Defined.

(** ** A resumed run *)

Section ResumedRun.
Context `{PyLib}.
Import Py RecipeScraper.




(** One identifier through the worker: a download counted and the identifier
    marked completed, or a failure counted and the identifier marked failed. *)
Lemma worker_item_marks cfg s w since recipe_id :
  let r := worker_item cfg s (w, since) recipe_id in
  (state r.1 = StateManager.mark_completed recipe_id (state w)
   /\ stat_downloaded (stats r.1) = stat_downloaded (stats w) + 1
   /\ stat_failures (stats r.1) = stat_failures (stats w))
  \/ (state r.1 = StateManager.mark_failed recipe_id (state w)
      /\ stat_downloaded (stats r.1) = stat_downloaded (stats w)
      /\ stat_failures (stats r.1) = stat_failures (stats w) + 1).
Proof.
  unfold worker_item.
  pose proof (attempts_frame cfg s recipe_id (Z.to_nat (max_retries cfg + 1)) 0 w)
    as (Hst & Hstats & _).
  fold (_download_recipe cfg s recipe_id w) in Hst, Hstats.
  destruct (_download_recipe cfg s recipe_id w) as [success w1].
  cbn [fst snd] in Hst, Hstats. cbn zeta.
  destruct success; [left|right];
    destruct (save_interval cfg <=? since + 1);
    cbn [fst say with_disk with_state count_failure count_downloaded with_stats
         stats state stat_failures stat_downloaded];
    by rewrite Hst, Hstats.
Qed.

(** The state and the counters after the worker has drained [queue]. *)
Record drained (queue : list str) (w w' : World) : Prop := {
  drained_pending :
    ScrapeState.pending (state w')
    = ScrapeState.pending (state w) ∖ list_to_set queue;
  drained_settled :
    forall x, x ∈ queue ->
      x ∈ ScrapeState.completed (state w') \/ x ∈ ScrapeState.failed (state w');
  drained_completed :
    ScrapeState.completed (state w) ⊆ ScrapeState.completed (state w');
  drained_failed :
    ScrapeState.failed (state w) ∖ list_to_set queue
    ⊆ ScrapeState.failed (state w');
  drained_discovered :
    ScrapeState.discovered (state w') = ScrapeState.discovered (state w);
  drained_downloaded : stat_downloaded (stats w) <= stat_downloaded (stats w');
  drained_failures : stat_failures (stats w) <= stat_failures (stats w');
  drained_count :
    stat_downloaded (stats w') + stat_failures (stats w')
    = stat_downloaded (stats w) + stat_failures (stats w) + Z.of_nat (length queue);
  drained_clean :
    stat_failures (stats w') = stat_failures (stats w) ->
    ScrapeState.completed (state w')
    = ScrapeState.completed (state w) ∪ list_to_set queue
    /\ ScrapeState.failed (state w')
       = ScrapeState.failed (state w) ∖ list_to_set queue;
}.

Lemma foldl_worker_drained cfg s queue w since :
  drained queue w (foldl (worker_item cfg s) (w, since) queue).1.
Proof.
  revert w since. induction queue as [|rid queue IH]; intros w since.
  - cbn [foldl fst length list_to_set]. split.
    + set_solver.
    + intros x Hx. by apply elem_of_nil in Hx.
    + done.
    + set_solver.
    + done.
    + lia.
    + lia.
    + cbn [length]. lia.
    + intros _. cbn [list_to_set]. set_solver.
  - cbn [foldl].
    pose proof (worker_item_marks cfg s w since rid) as Hitem.
    destruct (worker_item cfg s (w, since) rid) as [w1 since1].
    cbn [fst] in Hitem. destruct (IH w1 since1) as [Hp Hs Hc Hf Hd Hdl Hfl Hn Hcl].
    set (w' := (foldl (worker_item cfg s) (w1, since1) queue).1) in *.
    clearbody w'. clear IH.
    destruct Hitem as [(Hst & Hok & Hko)|(Hst & Hok & Hko)]; rewrite Hst in *;
      cbn [StateManager.mark_completed StateManager.mark_failed
           ScrapeState.pending ScrapeState.completed ScrapeState.failed
           ScrapeState.discovered] in *;
      (split;
       [ rewrite Hp; cbn [list_to_set]; set_solver
       | intros x Hx; apply elem_of_cons in Hx as [->|Hx];
         [|by apply Hs]
       | set_solver
       | cbn [list_to_set]; set_solver
       | done
       | lia
       | lia
       | rewrite Hn; cbn [length]; lia
       | intros Heq ]).
    + left. apply Hc. set_solver.
    + destruct Hcl as [Hc1 Hf1]; [lia|]. rewrite Hc1, Hf1.
      cbn [list_to_set]. split; set_solver.
    + destruct (decide (rid ∈ queue)) as [Hin|Hnin]; [by apply Hs|].
      right. apply Hf. apply elem_of_difference. split; [set_solver|].
      by rewrite elem_of_list_to_set.
    + lia.
Qed.

(** X6. The worker on a queue: afterwards no queued identifier is pending
    and each is completed or failed; nothing is taken out of [completed],
    failed identifiers that were not queued stay failed, [discovered] is
    untouched; the two counters never decrease and together grow by the
    length of the queue; and when [failures] did not grow, every queued
    identifier is completed and none of them is failed. *)
Theorem download_worker_drains cfg s queue w :
  drained queue w (_download_worker cfg s queue w).
Proof. apply foldl_worker_drained. Qed.




End ResumedRun.



(** ** The counters of a run on explicit identifiers *)

Section SpecificCounters.
Context `{PyLib}.
Import Py RecipeScraper.

(** The counters that are reported, as one number. *)
Definition handled (s : ScrapeStats) : Z :=
  stat_skipped s + stat_downloaded s + stat_failures s.

Lemma scrape_one_counts cfg s w recipe_id :
  let w' := scrape_one cfg s w recipe_id in
  handled (stats w') = handled (stats w) + 1
  /\ stat_skipped (stats w) <= stat_skipped (stats w')
  /\ stat_downloaded (stats w) <= stat_downloaded (stats w')
  /\ stat_failures (stats w) <= stat_failures (stats w')
  /\ stat_updated (stats w') = stat_updated (stats w)
  /\ stat_discovered (stats w') = stat_discovered (stats w)
  /\ stat_prefixes_queried (stats w') = stat_prefixes_queried (stats w).
Proof.
  unfold scrape_one, handled.
  destruct (negb (StateManager.should_download cfg (disk w) (state w) recipe_id)).
  - cbn. lia.
  - pose proof (attempts_frame cfg s recipe_id (Z.to_nat (max_retries cfg + 1)) 0 w)
      as (_ & Hstats & _).
    fold (_download_recipe cfg s recipe_id w) in Hstats.
    destruct (_download_recipe cfg s recipe_id w) as [success w1].
    cbn [snd] in Hstats.
    destruct success; cbn; rewrite Hstats; lia.
Qed.

Lemma foldl_scrape_counts cfg s l w :
  let w' := foldl (scrape_one cfg s) w l in
  handled (stats w') = handled (stats w) + Z.of_nat (length l)
  /\ stat_skipped (stats w) <= stat_skipped (stats w')
  /\ stat_downloaded (stats w) <= stat_downloaded (stats w')
  /\ stat_failures (stats w) <= stat_failures (stats w')
  /\ stat_updated (stats w') = stat_updated (stats w)
  /\ stat_discovered (stats w') = stat_discovered (stats w)
  /\ stat_prefixes_queried (stats w') = stat_prefixes_queried (stats w).
Proof.
  revert w. induction l as [|rid l IH]; intros w.
  - cbn [foldl length]. lia.
  - cbn [foldl length]. cbn zeta.
    destruct (IH (scrape_one cfg s w rid)) as (-> & ? & ? & ? & -> & -> & ->).
    destruct (scrape_one_counts cfg s w rid) as (-> & ? & ? & ? & -> & -> & ->).
    lia.
Qed.

(** X8. A run on explicit identifiers handles each identifier that
    [_normalize_id] accepts exactly once: [skipped], [downloaded] and
    [failures] never decrease and together grow by the number of accepted
    identifiers; the other counters, [updated] among them, are never
    touched. *)
Theorem specific_run_counts cfg s w :
  let w' := _scrape_specific_recipes cfg s w in
  handled (stats w')
  = handled (stats w) + Z.of_nat (length (omap _normalize_id (recipe_ids cfg)))
  /\ stat_skipped (stats w) <= stat_skipped (stats w')
  /\ stat_downloaded (stats w) <= stat_downloaded (stats w')
  /\ stat_failures (stats w) <= stat_failures (stats w')
  /\ stat_updated (stats w') = stat_updated (stats w)
  /\ stat_discovered (stats w') = stat_discovered (stats w)
  /\ stat_prefixes_queried (stats w') = stat_prefixes_queried (stats w).
Proof.
  unfold _scrape_specific_recipes. cbn [say stats].
  apply (foldl_scrape_counts cfg s _
           (say [InfoScraping (length (omap _normalize_id (recipe_ids cfg)))] w)).
Qed.

Lemma scrape_one_skip cfg s w recipe_id :
  StateManager.should_download cfg (disk w) (state w) recipe_id = false ->
  let w' := scrape_one cfg s w recipe_id in
  disk w' = disk w /\ state w' = state w /\ fetches w' = fetches w
  /\ stat_skipped (stats w') = stat_skipped (stats w) + 1
  /\ stat_downloaded (stats w') = stat_downloaded (stats w)
  /\ stat_failures (stats w') = stat_failures (stats w).
Proof. intros Hno. unfold scrape_one. rewrite Hno. by cbn. Qed.

(** X9. When the fetch decision refuses every accepted identifier of the
    list, the run fetches nothing and writes nothing: no pass through the
    browser is made, the disk and the crawl state are as before, and
    [skipped] grows by the number of accepted identifiers. *)
Theorem specific_run_all_skipped cfg s w :
  Forall (fun rid => StateManager.should_download cfg (disk w) (state w) rid = false)
         (omap _normalize_id (recipe_ids cfg)) ->
  let w' := _scrape_specific_recipes cfg s w in
  disk w' = disk w /\ state w' = state w /\ fetches w' = fetches w
  /\ stat_skipped (stats w')
     = stat_skipped (stats w) + Z.of_nat (length (omap _normalize_id (recipe_ids cfg)))
  /\ stat_downloaded (stats w') = stat_downloaded (stats w)
  /\ stat_failures (stats w') = stat_failures (stats w).
Proof.
  intros Hall. unfold _scrape_specific_recipes. cbn [say disk state stats fetches].
  set (w0 := say [InfoScraping (length (omap _normalize_id (recipe_ids cfg)))] w).
  change (disk w) with (disk w0) in *. change (state w) with (state w0) in *.
  change (fetches w) with (fetches w0). change (stats w) with (stats w0).
  clearbody w0. revert w0 Hall.
  induction (omap _normalize_id (recipe_ids cfg)) as [|rid l IH]; intros w0 Hall.
  - cbn [foldl length]. repeat split; lia.
  - apply Forall_cons in Hall as [Hrid Hall]. cbn [foldl length].
    destruct (scrape_one_skip cfg s w0 rid Hrid) as (Hd & Hs & Hf & Hk & Hdl & Hfl).
    destruct (IH (scrape_one cfg s w0 rid)) as (-> & -> & -> & -> & -> & ->).
    { by rewrite Hd, Hs. }
    rewrite Hd, Hs, Hf, Hk, Hdl, Hfl. repeat split; lia.
Qed.

End SpecificCounters.

(** ** Stripped strings *)

Section Strip.
Import Py.

Lemma lstrip_by_cases p s :
  lstrip_by p s = [] \/ exists c t, lstrip_by p s = c :: t /\ p c = false.
Proof.
  induction s as [|a s IH]; [by left|]. cbn [lstrip_by].
  destruct (p a) eqn:Ha; [done|]. right. by exists a, s.
Qed.

Lemma lstrip_by_snoc p l c :
  p c = false -> lstrip_by p (l ++ [c]) = lstrip_by p l ++ [c].
Proof.
  intros Hc. induction l as [|a l IH]; cbn [app lstrip_by].
  - by rewrite Hc.
  - by destruct (p a).
Qed.

Lemma lstrip_by_idemp p s : lstrip_by p (lstrip_by p s) = lstrip_by p s.
Proof.
  destruct (lstrip_by_cases p s) as [->|(c & t & -> & Hc)]; [done|].
  cbn [lstrip_by]. by rewrite Hc.
Qed.

Lemma rstrip_by_cons p c t :
  p c = false -> rstrip_by p (c :: t) = c :: rstrip_by p t.
Proof.
  intros Hc. unfold rstrip_by. cbn [rev].
  by rewrite lstrip_by_snoc, rev_app_distr.
Qed.

Lemma rstrip_by_idemp p s : rstrip_by p (rstrip_by p s) = rstrip_by p s.
Proof. unfold rstrip_by. by rewrite rev_involutive, lstrip_by_idemp. Qed.

(** What [strip] returns is empty or starts with a character that is not
    white space, and stripping its right end again changes nothing. *)
Lemma strip_cases s :
  strip s = []
  \/ exists c t, strip s = c :: t /\ isspace c = false
                 /\ rstrip_by isspace (c :: t) = c :: t.
Proof.
  unfold strip.
  destruct (lstrip_by_cases isspace s) as [->|(c & t & -> & Hc)]; [by left|].
  right. rewrite rstrip_by_cons by done. exists c, (rstrip_by isspace t).
  split; [done|]. split; [done|].
  by rewrite rstrip_by_cons, rstrip_by_idemp.
Qed.

Lemma strip_idemp s : strip (strip s) = strip s.
Proof.
  destruct (strip_cases s) as [->|(c & t & -> & Hc & Hr)]; [done|].
  unfold strip. cbn [lstrip_by]. by rewrite Hc.
Qed.

(** A string that [strip] leaves as it is. *)
Definition stripped (s : str) : Prop := strip s = s.

Lemma stripped_strip s : stripped (strip s).
Proof. apply strip_idemp. Qed.

Lemma stripped_cons c s :
  isspace c = false -> s <> [] -> stripped s -> stripped (c :: s).
Proof.
  intros Hc Hne Hs. unfold stripped in *.
  destruct (strip_cases s) as [He|(d & t & Hdt & Hd & Hr)]; [congruence|].
  rewrite Hs in Hdt. subst s.
  unfold strip. cbn [lstrip_by]. rewrite Hc.
  by rewrite rstrip_by_cons, Hr.
Qed.

End Strip.

Section NormalizeAgain.
Context `{PyLib}.
Import Py RecipeScraper.

(** X10. Whatever [_normalize_id] returns is not empty, starts with [r],
    has no white space at either end, and is returned unchanged when
    normalised again. *)
Theorem normalize_id_idempotent recipe_id rid :
  isdigit 114%N = false ->
  _normalize_id recipe_id = Some rid ->
  rid <> [] /\ startswith (lit "r") rid = true /\ stripped rid
  /\ _normalize_id rid = Some rid.
Proof.
  intros Hr Hn. rewrite (normalize_id_spec Hr) in Hn.
  destruct (strip_cases recipe_id) as [He|(c & t & Hct & Hc & Hrs)];
    [by rewrite He in Hn|].
  assert (stripped (c :: t)) as Hs by (rewrite <- Hct; apply stripped_strip).
  rewrite Hct in Hn.
  assert (stripped rid /\ exists t', rid = 114%N :: t') as [Hsr [t' Hrid]].
  { destruct (N.eqb_spec c 114) as [->|Hne]; injection Hn as <-.
    - split; [done|by eexists].
    - split; [|by eexists]. by apply stripped_cons. }
  subst rid. split; [done|]. split; [reflexivity|]. split; [done|].
  rewrite (normalize_id_spec Hr). unfold stripped in Hsr. rewrite Hsr.
  by rewrite N.eqb_refl.
Qed.

End NormalizeAgain.

Lemma normalize_id_idempotent_witness :
  @isdigit text_lib 114%N = false
  /\ @RecipeScraper._normalize_id text_lib (Py.lit " 123 ") = Some (Py.lit "r123")
  /\ @RecipeScraper._normalize_id text_lib (Py.lit "r123") = Some (Py.lit "r123").
Proof.
  assert (@isdigit text_lib 114%N = false) as Hr by reflexivity.
  assert (@RecipeScraper._normalize_id text_lib (Py.lit " 123 ") = Some (Py.lit "r123"))
    as Hn by reflexivity.
  split; [exact Hr|]. split; [exact Hn|].
  exact (proj2 (proj2 (proj2
    (@normalize_id_idempotent text_lib (Py.lit " 123 ") (Py.lit "r123") Hr Hn)))).
Defined.

(** * Further properties of the discovery *)

Section Yields.
Import Py AlgoliaClient.

Lemma turn_yield query prefix rest g :
  (seen_ids (turn query prefix rest g), yielded (turn query prefix rest g))
  = foldl emit (seen_ids g, yielded g) (query (length (queried g)) prefix).1.
Proof.
  unfold turn. destruct (query _ prefix) as [ids total]. cbn [fst].
  by destruct (foldl emit _ ids).
Qed.

(** The identifiers seen are those yielded, each yielded once. *)
Definition deduplicated (acc : gset str * list str) : Prop :=
  NoDup acc.2 /\ forall x, x ∈ acc.1 <-> x ∈ acc.2.

Lemma emit_spec acc rid :
  deduplicated acc ->
  deduplicated (emit acc rid)
  /\ rid ∈ (emit acc rid).2
  /\ (exists new, (emit acc rid).2 = acc.2 ++ new /\ forall x, x ∈ new -> x = rid).
Proof.
  intros [Hnd Hseen]. unfold emit.
  destruct (bool_decide (rid ∈ acc.1)) eqn:Hin.
  - apply bool_decide_eq_true in Hin. split; [done|]. split; [by apply Hseen|].
    exists []. split; [by rewrite app_nil_r|]. intros x Hx. by apply elem_of_nil in Hx.
  - apply bool_decide_eq_false in Hin. unfold deduplicated. cbn [fst snd].
    split; [split|split].
    + apply NoDup_app. split; [done|]. split; [|apply NoDup_singleton].
      intros x Hx Hx'. apply list_elem_of_singleton in Hx' as ->.
      by apply Hin, Hseen.
    + intros x. rewrite elem_of_union, elem_of_singleton, elem_of_app,
        list_elem_of_singleton, Hseen. tauto.
    + apply elem_of_app. right. by left.
    + exists [rid]. split; [done|]. intros x Hx.
      by apply list_elem_of_singleton in Hx.
Qed.

Lemma foldl_emit_spec ids acc :
  deduplicated acc ->
  deduplicated (foldl emit acc ids)
  /\ (forall x, x ∈ ids -> x ∈ (foldl emit acc ids).2)
  /\ (exists new, (foldl emit acc ids).2 = acc.2 ++ new
                  /\ forall x, x ∈ new -> x ∈ ids).
Proof.
  revert acc. induction ids as [|rid ids IH]; intros acc Hacc.
  - cbn [foldl]. split; [done|]. split.
    + intros x Hx. by apply elem_of_nil in Hx.
    + exists []. split; [by rewrite app_nil_r|].
      intros x Hx. by apply elem_of_nil in Hx.
  - cbn [foldl]. destruct (emit_spec acc rid Hacc) as (Hd & Hin & new1 & Hout1 & Hnew1).
    destruct (IH _ Hd) as (Hd' & Hall & new2 & Hout2 & Hnew2).
    split; [done|]. split.
    + intros x Hx. apply elem_of_cons in Hx as [->|Hx]; [|by apply Hall].
      rewrite Hout2. apply elem_of_app. by left.
    + exists (new1 ++ new2). rewrite Hout2, Hout1, app_assoc. split; [done|].
      intros x Hx. apply elem_of_app in Hx as [Hx|Hx].
      * apply Hnew1 in Hx as ->. by left.
      * right. by apply Hnew2.
Qed.

(** What holds of the yielded identifiers at every turn. *)
Record yield_inv (query : oracle) (g : gen) : Prop := {
  yield_dedup : deduplicated (seen_ids g, yielded g);
  yield_complete : forall i prefix rid,
    queried g !! i = Some prefix -> rid ∈ (query i prefix).1 -> rid ∈ yielded g;
  yield_sound : forall rid,
    rid ∈ yielded g ->
    exists i prefix, queried g !! i = Some prefix /\ rid ∈ (query i prefix).1;
}.

Lemma start_yield_inv query : yield_inv query start.
Proof.
  split; cbn.
  - split; [constructor|]. intros x. set_solver.
  - intros i prefix rid Hi. by rewrite lookup_nil in Hi.
  - intros rid Hx. by apply elem_of_nil in Hx.
Qed.

Lemma turn_yield_inv query prefix rest g :
  yield_inv query g -> yield_inv query (turn query prefix rest g).
Proof.
  intros [Hd Hc Hs].
  pose proof (turn_yield query prefix rest g) as Hy.
  destruct (foldl_emit_spec (query (length (queried g)) prefix).1 _ Hd)
    as (Hd' & Hall & new & Hout & Hnew).
  rewrite <- Hy in Hd', Hall, Hout. cbn [fst snd] in Hd', Hall, Hout.
  split.
  - done.
  - intros i p rid Hi Hin. rewrite turn_queried in Hi.
    apply lookup_app_Some in Hi as [Hi|[Hlen Hi]].
    + rewrite Hout. apply elem_of_app. left. by apply (Hc i p).
    + apply list_lookup_singleton_Some in Hi as [Hi ->].
      assert (i = length (queried g)) as -> by lia. by apply Hall.
  - intros rid Hin. rewrite Hout in Hin. rewrite turn_queried.
    apply elem_of_app in Hin as [Hin|Hin].
    + destruct (Hs rid Hin) as (i & p & Hi & Hp). exists i, p. split; [|done].
      by apply lookup_app_l_Some.
    + exists (length (queried g)), prefix. split; [|by apply Hnew].
      rewrite lookup_app_r by lia. by rewrite Nat.sub_diag.
Qed.

Lemma loop_yield_inv query fuel g g' :
  yield_inv query g -> loop query fuel g = Some g' -> yield_inv query g'.
Proof.
  revert g. induction fuel as [|fuel IH]; intros g Hinv Hloop; cbn [loop] in Hloop.
  - destruct (prefix_queue g); [by injection Hloop as <-|done].
  - destruct (prefix_queue g) as [|prefix rest]; [by injection Hloop as <-|].
    apply (IH _ (turn_yield_inv query prefix rest g Hinv) Hloop).
Qed.

(** X11. A finished traversal has yielded no identifier twice, has yielded
    every identifier of every answer it got, and nothing else. *)
Theorem discover_all_yields query fuel g :
  loop query fuel start = Some g ->
  NoDup (yielded g)
  /\ (forall i prefix rid,
        queried g !! i = Some prefix -> rid ∈ (query i prefix).1 -> rid ∈ yielded g)
  /\ (forall rid, rid ∈ yielded g ->
        exists i prefix, queried g !! i = Some prefix /\ rid ∈ (query i prefix).1).
Proof.
  intros Hloop.
  destruct (loop_yield_inv query fuel start g (start_yield_inv query) Hloop)
    as [[Hnd _] Hc Hs].
  done.
Qed.

(** *** The order of the queries *)

Definition shorter (a b : str) : Prop := (length a <= length b)%nat.

(** Queried prefixes and queue, in this order, never get shorter, the queue
    holds prefixes at most one longer than its head, and the single
    characters of the alphabet come first. *)
Record order_inv (g : gen) : Prop := {
  order_sorted : StronglySorted shorter (queried g ++ prefix_queue g);
  order_level : forall p rest x,
    prefix_queue g = p :: rest -> x ∈ rest -> (length x <= S (length p))%nat;
  order_roots : ((fun c => [c]) <$> SEARCH_CHARS) `prefix_of` queried g ++ prefix_queue g;
}.

Lemma start_order_inv : order_inv start.
Proof.
  split; cbn [start queried prefix_queue app].
  - generalize SEARCH_CHARS. intros l. induction l as [|c l IH]; [constructor|].
    cbn [fmap list_fmap]. constructor; [done|].
    apply Forall_forall. intros x Hx.
    apply list_elem_of_fmap in Hx as (c' & -> & _). unfold shorter. cbn. lia.
  - intros p rest x Hq Hx.
    assert (x ∈ (fun c => [c]) <$> SEARCH_CHARS) as Hx'
      by (rewrite Hq; by right).
    apply list_elem_of_fmap in Hx' as (c' & -> & _). cbn. lia.
  - done.
Qed.

Lemma turn_order_inv query prefix rest g :
  prefix_queue g = prefix :: rest -> order_inv g ->
  order_inv (turn query prefix rest g).
Proof.
  intros Hq [Hs Hl Hr]. rewrite Hq in Hs, Hr.
  assert ((queried g ++ [prefix]) ++ rest = queried g ++ prefix :: rest) as Hsame
    by by rewrite <- app_assoc.
  assert (Forall (shorter prefix) rest) as Hmin.
  { apply StronglySorted_app_1_r in Hs. by inversion Hs. }
  destruct (turn_queue_cases query prefix rest g) as [Hrest|[Hext _]];
    split; rewrite ?turn_queried; rewrite ?Hrest, ?Hext.
  - by rewrite Hsame.
  - intros p rest' x Hp Hx. subst rest.
    apply Forall_cons in Hmin as [Hpp _].
    specialize (Hl prefix (p :: rest') x Hq (list_elem_of_further _ _ _ Hx)).
    unfold shorter in Hpp. lia.
  - by rewrite Hsame.
  - rewrite app_assoc, Hsame. apply StronglySorted_app.
    split; [|split; [done|]].
    + intros x y Hx Hy. unfold extensions in Hy.
      apply list_elem_of_fmap in Hy as (c & -> & _).
      unfold shorter. rewrite length_app. cbn [length].
      apply elem_of_app in Hx as [Hx|Hx].
      * assert (shorter x prefix) as Hxp.
        { apply (StronglySorted_app_1_elem_of _ _ _ x prefix Hs Hx). by left. }
        unfold shorter in Hxp. lia.
      * apply elem_of_cons in Hx as [->|Hx]; [lia|].
        specialize (Hl prefix rest x Hq Hx). lia.
    + unfold extensions.
      generalize SEARCH_CHARS. intros l. induction l as [|c l IH]; [constructor|].
      cbn [fmap list_fmap]. constructor; [done|].
      apply Forall_forall. intros x Hx.
      apply list_elem_of_fmap in Hx as (c' & -> & _). unfold shorter.
      rewrite !length_app. cbn. lia.
  - intros p rest' x Hp Hx.
    assert (forall y, y ∈ rest ++ extensions prefix ->
              (length prefix <= length y <= S (length prefix))%nat) as Hrange.
    { intros y Hy. apply elem_of_app in Hy as [Hy|Hy].
      - split; [|by apply (Hl prefix rest)].
        rewrite Forall_forall in Hmin. by apply Hmin.
      - unfold extensions in Hy. apply list_elem_of_fmap in Hy as (c & -> & _).
        rewrite length_app. cbn. lia. }
    assert (p ∈ rest ++ extensions prefix) as Hpin by (rewrite Hp; by left).
    assert (x ∈ rest ++ extensions prefix) as Hxin by (rewrite Hp; by right).
    apply Hrange in Hpin, Hxin. lia.
  - rewrite app_assoc, Hsame. by apply prefix_app_r.
Qed.

Lemma loop_order_inv query fuel g g' :
  order_inv g -> loop query fuel g = Some g' -> order_inv g'.
Proof.
  revert g. induction fuel as [|fuel IH]; intros g Hinv Hloop; cbn [loop] in Hloop.
  - destruct (prefix_queue g); [by injection Hloop as <-|done].
  - destruct (prefix_queue g) as [|prefix rest] eqn:Hq; [by injection Hloop as <-|].
    apply (IH _ (turn_order_inv query prefix rest g Hq Hinv) Hloop).
Qed.

(** X12. The traversal is breadth first: whatever the answers, it queries
    the 68 single characters of the alphabet first, in alphabet order, and a
    prefix is never queried before a shorter one. *)
Theorem discover_all_breadth_first query fuel g :
  loop query fuel start = Some g ->
  take 68 (queried g) = (fun c => [c]) <$> SEARCH_CHARS
  /\ StronglySorted shorter (queried g)
  /\ prefix_queue g = [].
Proof.
  intros Hloop.
  destruct (loop_order_inv query fuel start g start_order_inv Hloop) as [Hs _ Hr].
  assert (prefix_queue g = []) as Hq.
  { clear Hs Hr. revert Hloop. generalize start. induction fuel as [|fuel IH];
      intros g0 Hloop; cbn [loop] in Hloop.
    - destruct (prefix_queue g0) eqn:Hq; [by injection Hloop as <-|done].
    - destruct (prefix_queue g0) as [|p r] eqn:Hq; [by injection Hloop as <-|].
      by apply (IH _ Hloop). }
  rewrite Hq, app_nil_r in Hs, Hr. split; [|done].
  destruct Hr as [k ->].
  assert (length ((fun c => [c]) <$> SEARCH_CHARS) = 68%nat) as Hlen by reflexivity.
  by rewrite <- Hlen, take_app_length.
Qed.

End Yields.

Lemma discover_all_yields_witness :
  let query : AlgoliaClient.oracle := fun _ _ => ([Py.lit "r1"; Py.lit "r1"], 2) in
  exists g, AlgoliaClient.loop query 100 AlgoliaClient.start = Some g
            /\ NoDup (AlgoliaClient.yielded g).
Proof.
  intros query.
  destruct (AlgoliaClient.loop query 100 AlgoliaClient.start) as [g|] eqn:Hloop.
  - exists g. split; [reflexivity|].
    exact (proj1 (discover_all_yields query 100 g Hloop)).
  - exfalso. vm_compute in Hloop. discriminate Hloop.
Defined.

Lemma discover_all_breadth_first_witness :
  let query : AlgoliaClient.oracle := fun _ _ => ([], 0) in
  exists g, AlgoliaClient.loop query 100 AlgoliaClient.start = Some g
            /\ StronglySorted shorter (AlgoliaClient.queried g).
Proof.
  intros query.
  destruct (AlgoliaClient.loop query 100 AlgoliaClient.start) as [g|] eqn:Hloop.
  - exists g. split; [reflexivity|].
    exact (proj1 (proj2 (discover_all_breadth_first query 100 g Hloop))).
  - exfalso. vm_compute in Hloop. discriminate Hloop.
Defined.

(** ** algolia.py: reading an answer *)

Module AlgoliaAnswer.
Import Py.

(** [for x in v]: the members of a list, the characters of a string, the
    keys of a dict; [None] stands for the [TypeError] of the other values. *)
Definition iterate (v : value) : option (list value) :=
  match v with
  | VList l => Some l
  | VStr s => Some ((fun c => VStr [c]) <$> s)
  | VDict items => Some ((fun e => VStr e.1) <$> items)
  | _ => None
  end.

(** The body of [for hit in hits]: what a hit appends to [ids]. *)
Definition hit_id (hit : value) : option str :=
  match hit with
  | VDict _ =>
      i ← get hit (lit "id") VNone;
      o ← get hit (lit "objectID") VNone;
      match or_ i o with
      | VStr rid => match strip rid with [] => None | s => Some s end
      | _ => None
      end
  | _ => None
  end.

(** [_query_prefix] on what the request gives: [None] for an exception of
    [urlopen] or of the JSON decoder, else the decoded answer. *)
Definition _query_prefix (response : option value) : list str * value :=
  match response with
  | None => ([], VInt 0)
  | Some data =>
      match get data (lit "nbHits") VNone, get data (lit "hits") VNone with
      | Some n, Some h =>
          match iterate (or_ h (VList [])) with
          | Some hits => (omap hit_id hits, or_ n (VInt 0))
          | None => ([], VInt 0)
          end
      | _, _ => ([], VInt 0)
      end
  end.

End AlgoliaAnswer.

Section Answer.
Import Py AlgoliaAnswer.

Lemma hit_id_stripped hit rid :
  hit_id hit = Some rid -> rid <> [] /\ stripped rid.
Proof.
  unfold hit_id. destruct hit as [| | | | |?|items]; try done.
  destruct (get (VDict items) (lit "id") VNone) as [i|]; [|done].
  destruct (get (VDict items) (lit "objectID") VNone) as [o|]; [|done].
  cbn [mbind option_bind]. destruct (or_ i o) as [| | | |s| |]; try done.
  destruct (strip s) as [|c t] eqn:Hs; [done|]. intros [= <-].
  split; [done|]. rewrite <- Hs. apply stripped_strip.
Qed.

Lemma length_omap_le {A B} (f : A -> option B) (l : list A) :
  (length (omap f l) <= length l)%nat.
Proof.
  induction l as [|x l IH]; [done|]. cbn [omap list_omap].
  destruct (f x); cbn [length]; lia.
Qed.

(** X13. Every identifier [_query_prefix] returns is a non-empty string
    without white space at its ends, and there is at most one per hit, in
    the order of the hits. A failed request, an answer that is not a JSON
    object and hits that cannot be iterated give no identifier and a total
    of 0. *)
Theorem query_prefix_ids response :
  Forall (fun rid => rid <> [] /\ stripped rid) (_query_prefix response).1
  /\ (forall data hits,
        response = Some data -> get data (lit "hits") VNone = Some (VList hits) ->
        (_query_prefix response).1 = omap hit_id hits
        /\ (length (_query_prefix response).1 <= length hits)%nat)
  /\ (response = None -> _query_prefix response = ([], VInt 0))
  /\ (forall data, response = Some data -> (forall items, data <> VDict items) ->
        _query_prefix response = ([], VInt 0))
  /\ (forall data h, response = Some data ->
        get data (lit "hits") VNone = Some h -> iterate (or_ h (VList [])) = None ->
        _query_prefix response = ([], VInt 0)).
Proof.
  split; [|split; [|split; [|split]]].
  - unfold _query_prefix. destruct response as [data|]; [|constructor].
    destruct (get data (lit "nbHits") VNone) as [n|]; [|constructor].
    destruct (get data (lit "hits") VNone) as [h|]; [|constructor].
    destruct (iterate (or_ h (VList []))) as [hits|]; [|constructor].
    cbn [fst]. apply Forall_forall. intros rid Hin.
    apply list_elem_of_omap in Hin as (hit & _ & Hhit).
    by apply hit_id_stripped in Hhit.
  - intros data hits -> Hh. unfold _query_prefix. rewrite Hh.
    assert (exists n, get data (lit "nbHits") VNone = Some n) as [n ->].
    { destruct data; try done. by eexists. }
    rewrite or_list_id. cbn [iterate fst]. split; [done|apply length_omap_le].
  - by intros ->.
  - intros data -> Hnd. unfold _query_prefix.
    destruct data as [| | | | | |items]; try done. by destruct (Hnd items).
  - intros data h -> Hh Hit. unfold _query_prefix. rewrite Hh, Hit.
    by destruct (get data (lit "nbHits") VNone).
Qed.

End Answer.

Lemma query_prefix_ids_witness :
  let hits := [ Py.VDict [(Py.lit "id", Py.VStr (Py.lit " r7 "))];
                Py.VDict [(Py.lit "objectID", Py.VStr (Py.lit "r8"))];
                Py.VStr (Py.lit "r9") ] in
  let data := Py.VDict [ (Py.lit "nbHits", Py.VInt 3); (Py.lit "hits", Py.VList hits) ] in
  Py.get data (Py.lit "hits") Py.VNone = Some (Py.VList hits)
  /\ (AlgoliaAnswer._query_prefix (Some data)).1 = [Py.lit "r7"; Py.lit "r8"].
Proof.
  intros hits data.
  assert (Py.get data (Py.lit "hits") Py.VNone = Some (Py.VList hits)) as Hh
    by reflexivity.
  split; [exact Hh|].
  rewrite (proj1 (proj1 (proj2 (query_prefix_ids (Some data))) data hits eq_refl Hh)).
  reflexivity.
Defined.

(** ** config.py: the configuration read from the environment *)

(** [str.lower], of the standard library. *)
Class PyCase := { lower : str -> str }.

Module ConfigEnv.
Import Py.

(** [s.split(sep)] for a separator of one character. *)
Fixpoint split (sep : char) (s : str) : list str :=
  match s with
  | [] => [[]]
  | c :: s' =>
      if (c =? sep)%N then [] :: split sep s'
      else match split sep s' with
           | h :: t => (c :: h) :: t
           | [] => [[c]]
           end
  end.

(** [os.environ] *)
Abbreviation environ := (gmap (list N) (list N)).

Section WithCase.
Context `{PyCase}.

(** The helper [get_env] of [Config.from_env], on its names and default. *)
Fixpoint get_env (env : environ) (names : list str) (dflt : option str)
    : option str :=
  match names with
  | [] => dflt
  | name :: names' =>
      match env !! name with
      | Some val =>
          match val, strip val with
          | _ :: _, (_ :: _) as s => Some s
          | _, _ => get_env env names' dflt
          end
      | None => get_env env names' dflt
      end
  end.

(** [RunMode(value)]; [None] stands for [ValueError]. *)
Definition RunMode_of (value : str) : option RunMode :=
  if bool_decide (value = lit "skip") then Some SKIP_EXISTING
  else if bool_decide (value = lit "update") then Some UPDATE
  else if bool_decide (value = lit "redownload") then Some REDOWNLOAD_ALL
  else if bool_decide (value = lit "continue") then Some CONTINUE
  else None.

Definition mode_of_env (env : environ) : RunMode :=
  match get_env env [lit "THERMOMIX_MODE"; lit "RUN_MODE"] (Some (lit "skip")) with
  | Some ((_ :: _) as mode_str) => default SKIP_EXISTING (RunMode_of (lower mode_str))
  | _ => SKIP_EXISTING
  end.

Definition recipe_ids_of_env (env : environ) : list str :=
  match get_env env [lit "THERMOMIX_RECIPE_IDS"; lit "RECIPE_IDS"] (Some []) with
  | Some ((_ :: _) as recipe_ids_str) =>
      omap (fun r => match strip r with [] => None | s => Some s end)
           (split 44 recipe_ids_str)
  | _ => []
  end.

(** [Config.from_env()], for the fields modelled: the recovery file is
    [output_dir / ".scraper_state.json"] by [__post_init__], the retry budget
    and the save interval keep their defaults. *)
Definition from_env (env : environ) : Config :=
  mkConfig default_state_file (mode_of_env env) (recipe_ids_of_env env) 2 10.

End WithCase.
End ConfigEnv.

Section FromEnv.
Context `{PyLib} `{PyCase}.
Import Py ConfigEnv.

Lemma get_env_stripped env names dflt s :
  get_env env names dflt = Some s -> dflt = Some s \/ (s <> [] /\ stripped s).
Proof.
  induction names as [|name names IH]; cbn [get_env]; [by left|].
  destruct (env !! name) as [val|]; [|done].
  destruct val as [|c val]; [done|].
  destruct (strip (c :: val)) as [|d t] eqn:Hs; [done|].
  intros [= <-]. right. split; [done|]. rewrite <- Hs. apply stripped_strip.
Qed.

Lemma normalize_id_accepts recipe_id :
  strip recipe_id <> [] -> is_Some (RecipeScraper._normalize_id recipe_id).
Proof.
  intros Hne. unfold RecipeScraper._normalize_id.
  destruct (strip recipe_id); [done|]. by eexists.
Qed.

Lemma recipe_ids_of_env_stripped env :
  Forall (fun r => r <> [] /\ stripped r) (recipe_ids_of_env env).
Proof.
  unfold recipe_ids_of_env.
  destruct (get_env env _ _) as [[|c s]|]; try constructor.
  apply Forall_forall. intros r Hr.
  apply list_elem_of_omap in Hr as (x & _ & Hx).
  destruct (strip x) as [|d t] eqn:Hs; [done|]. injection Hx as <-.
  split; [done|]. rewrite <- Hs. apply stripped_strip.
Qed.

(** X14. Every configuration read from the environment is well formed for
    the run: its recovery file is not a record file, its retry budget is not
    negative, each configured identifier is a non-empty string without white
    space at its ends, and [_normalize_id] accepts every one of them, so none
    is dropped from the list to scrape. With neither variable set the list
    is empty and the run goes to discovery. *)
Theorem from_env_well_formed (env : environ) :
  let cfg := from_env env in
  apart cfg /\ 0 <= max_retries cfg
  /\ Forall (fun r => r <> [] /\ stripped r) (recipe_ids cfg)
  /\ length (omap RecipeScraper._normalize_id (recipe_ids cfg))
     = length (recipe_ids cfg)
  /\ (env !! lit "THERMOMIX_RECIPE_IDS" = None -> env !! lit "RECIPE_IDS" = None ->
      recipe_ids cfg = []).
Proof.
  cbn zeta. unfold from_env. cbn [recipe_ids max_retries].
  split; [apply default_apart|]. split; [lia|].
  split; [apply recipe_ids_of_env_stripped|]. split.
  - pose proof (recipe_ids_of_env_stripped env) as Hall.
    induction Hall as [|r l [Hne Hs] _ IH]; [done|].
    cbn [omap list_omap length].
    destruct (normalize_id_accepts r) as [rid ->]; [|cbn [length]; by rewrite IH].
    unfold stripped in Hs. by rewrite Hs.
  - intros H1 H2. unfold recipe_ids_of_env. cbn [get_env]. by rewrite H1, H2.
Qed.

End FromEnv.

Lemma from_env_well_formed_witness :
  let env : gmap (list N) (list N) := ∅ in
  env !! Py.lit "THERMOMIX_RECIPE_IDS" = None
  /\ env !! Py.lit "RECIPE_IDS" = None
  /\ recipe_ids (@ConfigEnv.from_env {| lower := fun s => s |} env) = [].
Proof.
  intros env.
  assert (env !! Py.lit "THERMOMIX_RECIPE_IDS" = None) as H1 by apply lookup_empty.
  assert (env !! Py.lit "RECIPE_IDS" = None) as H2 by apply lookup_empty.
  split; [exact H1|]. split; [exact H2|].
  exact (proj2 (proj2 (proj2 (proj2
    (@from_env_well_formed text_lib {| lower := fun s => s |} env)))) H1 H2).
Defined.

(** ** parser.py: the steps of a JSON-LD recipe *)

Module Parser.
Import Py.

Definition _ensure_list (v : value) : list value :=
  match v with
  | VNone => []
  | VList l => l
  | _ => [v]
  end.

(** [[txt] if txt else []] for [txt = s.strip()]. *)
Definition step_text (s : str) : list str :=
  match strip s with
  | [] => []
  | txt => [txt]
  end.

(** The body of [_flatten_steps(node)], with [recur] for its recursive
    calls. *)
Definition flatten_node (recur : value -> option (list str)) (node : value)
    : option (list str) :=
  match node with
  | VNone => Some []
  | VStr s => Some (step_text s)
  | VDict items =>
      let text := match items_get (lit "text") items with
                  | Some (VStr txt) => step_text txt
                  | _ => []
                  end in
      nested ← mapM (fun key =>
                       match items_get key items with
                       | Some children =>
                           mjoin <$> mapM recur (_ensure_list children)
                       | None => Some []
                       end)
                    [lit "itemListElement"; lit "steps"; lit "step";
                     lit "elements"];
      Some (text ++ mjoin nested)
  | VList l => mjoin <$> mapM recur l
  | _ => Some []
  end.

(** [_flatten_steps(node)], with [fuel] calls allowed on a path of nested
    nodes; [None] when they do not suffice. *)
Fixpoint _flatten_steps (fuel : nat) (node : value) : option (list str) :=
  match fuel with
  | O => None
  | S fuel' => flatten_node (_flatten_steps fuel') node
  end.

(** How deep lists and dicts are nested in a value. *)
Fixpoint height (v : value) : nat :=
  match v with
  | VList l =>
      S ((fix go (l : list value) : nat :=
            match l with
            | [] => O
            | x :: r => Nat.max (height x) (go r)
            end) l)
  | VDict items =>
      S ((fix go (l : list (str * value)) : nat :=
            match l with
            | [] => O
            | (_, x) :: r => Nat.max (height x) (go r)
            end) items)
  | _ => O
  end.

End Parser.

Section FlattenSteps.
Import Py Parser.

Lemma height_list x l : x ∈ l -> (height x < height (VList l))%nat.
Proof.
  cbn [height]. induction l as [|y l IH]; intros Hx; [by apply elem_of_nil in Hx|].
  apply elem_of_cons in Hx as [->|Hx]; [lia|]. specialize (IH Hx). lia.
Qed.

Lemma height_dict k x items :
  (k, x) ∈ items -> (height x < height (VDict items))%nat.
Proof.
  cbn [height]. induction items as [|[k' y] l IH]; intros Hx;
    [by apply elem_of_nil in Hx|].
  apply elem_of_cons in Hx as [[= -> ->]|Hx]; [lia|]. specialize (IH Hx). lia.
Qed.

Lemma items_get_elem k items v : items_get k items = Some v -> (k, v) ∈ items.
Proof.
  induction items as [|[k' v'] l IH]; [done|]. cbn [items_get].
  destruct (items_get k l) as [v''|].
  - intros [= ->]. right. by apply IH.
  - case_bool_decide as Hk; [|done]. intros [= ->]. subst. by left.
Qed.

Lemma height_ensure_list x v :
  x ∈ _ensure_list v -> (height x <= height v)%nat.
Proof.
  destruct v; cbn [_ensure_list]; intros Hx;
    try (apply list_elem_of_singleton in Hx as ->; lia).
  - by apply elem_of_nil in Hx.
  - apply height_list in Hx. lia.
Qed.

Lemma step_text_stripped s :
  Forall (fun t => t <> [] /\ stripped t) (step_text s).
Proof.
  unfold step_text. destruct (strip s) as [|c t] eqn:Hs; constructor; [|done].
  split; [done|]. rewrite <- Hs. apply stripped_strip.
Qed.

Lemma mapM_concat_Forall {A} (P : str -> Prop) (f : A -> option (list str)) l k :
  (forall x y, x ∈ l -> f x = Some y -> Forall P y) ->
  mapM f l = Some k -> Forall P (mjoin k).
Proof.
  intros Hf Hk. apply mapM_Some_1 in Hk. apply Forall_join.
  induction Hk as [|x y l k Hxy _ IH]; constructor.
  - apply (Hf x); [by left|done].
  - apply IH. intros x' y' Hx'. apply Hf. by right.
Qed.

Lemma flatten_steps_stripped fuel node steps :
  _flatten_steps fuel node = Some steps ->
  Forall (fun t => t <> [] /\ stripped t) steps.
Proof.
  revert node steps. induction fuel as [|fuel IH]; intros node steps; [done|].
  cbn [_flatten_steps]. unfold flatten_node.
  destruct node as [| | | |s|l|items].
  - by intros [= <-].
  - by intros [= <-].
  - by intros [= <-].
  - by intros [= <-].
  - intros [= <-]. apply step_text_stripped.
  - intros Hl. apply fmap_Some in Hl as (k & Hk & ->).
    apply (mapM_concat_Forall _ _ _ _ (fun x y _ => IH x y) Hk).
  - intros Hd. apply bind_Some in Hd as (nested & Hn & [= <-]).
    apply Forall_app. split.
    + destruct (items_get (lit "text") items) as [[| | | |txt| |]|];
        try constructor. apply step_text_stripped.
    + refine (mapM_concat_Forall _ _ _ _ _ Hn). intros key y _. cbn beta.
      destruct (items_get key items) as [children|]; [|by intros [= <-]].
      intros Hc. apply fmap_Some in Hc as (k & Hk & ->).
      apply (mapM_concat_Forall _ _ _ _ (fun x y _ => IH x y) Hk).
Qed.

Lemma flatten_node_mono (f g : value -> option (list str)) node steps :
  (forall x y, f x = Some y -> g x = Some y) ->
  flatten_node f node = Some steps -> flatten_node g node = Some steps.
Proof.
  intros Hfg.
  assert (forall l k, mapM f l = Some k -> mapM g l = Some k) as Hmap.
  { intros l k Hk. apply mapM_Some. apply mapM_Some_1 in Hk.
    eapply Forall2_impl; [exact Hk|]. apply Hfg. }
  unfold flatten_node. destruct node as [| | | |s|l|items]; try done.
  - intros Hf. apply fmap_Some in Hf as (k & Hk & ->). by rewrite (Hmap _ _ Hk).
  - cbn zeta. intros Hf. apply bind_Some in Hf as (nested & Hn & [= <-]).
    apply bind_Some. exists nested. split; [|done].
    apply mapM_Some. apply mapM_Some_1 in Hn.
    eapply Forall2_impl; [exact Hn|]. intros key y. cbn beta.
    destruct (items_get key items) as [children|]; [|done].
    intros Hc. apply fmap_Some in Hc as (k & Hk & ->). by rewrite (Hmap _ _ Hk).
Qed.

Lemma flatten_steps_more fuel node steps :
  _flatten_steps fuel node = Some steps ->
  _flatten_steps (S fuel) node = Some steps.
Proof.
  revert node steps. induction fuel as [|fuel IH]; intros node steps; [done|].
  change (_flatten_steps (S (S fuel)) node)
    with (flatten_node (_flatten_steps (S fuel)) node).
  change (_flatten_steps (S fuel) node)
    with (flatten_node (_flatten_steps fuel) node).
  apply flatten_node_mono, IH.
Qed.

Lemma flatten_steps_total fuel node :
  (height node < fuel)%nat -> is_Some (_flatten_steps fuel node).
Proof.
  revert node. induction fuel as [|fuel IH]; intros node Hh; [lia|].
  assert (forall l, (forall x, x ∈ l -> (height x < fuel)%nat) ->
                    is_Some (mapM (_flatten_steps fuel) l)) as Hmap.
  { intros l Hl. apply mapM_is_Some, Forall_forall. intros x Hx.
    apply IH, Hl, Hx. }
  cbn [_flatten_steps]. unfold flatten_node.
  destruct node as [| | | |s|l|items]; try by eexists.
  - destruct (Hmap l) as [k ->]; [|by eexists].
    intros x Hx. apply height_list in Hx. lia.
  - cbn zeta.
    assert (is_Some (mapM (fun key =>
                       match items_get key items with
                       | Some children =>
                           mjoin <$> mapM (_flatten_steps fuel)
                                           (_ensure_list children)
                       | None => Some []
                       end)
                     [lit "itemListElement"; lit "steps"; lit "step";
                      lit "elements"])) as [nested ->]; [|by eexists].
    apply mapM_is_Some, Forall_forall. intros key _. cbn.
    destruct (items_get key items) as [children|] eqn:Hget; [|by eexists].
    destruct (Hmap (_ensure_list children)) as [k ->]; [|by eexists].
    intros x Hx. apply height_ensure_list in Hx.
    apply items_get_elem, height_dict in Hget. lia.
Qed.

(** X15. [_flatten_steps] returns on every value once the calls allowed
    exceed the nesting depth of the value, with the same result for any
    larger allowance; every step it returns is a non-empty string without
    white space at its ends; and the steps of a list are those of its items,
    in order. *)
Theorem flatten_steps_result node fuel :
  (height node < fuel)%nat ->
  exists steps,
    _flatten_steps fuel node = Some steps
    /\ Forall (fun t => t <> [] /\ stripped t) steps
    /\ (forall more, _flatten_steps (fuel + more) node = Some steps)
    /\ (forall l, node = VList l ->
          exists parts, Forall2 (fun x y => _flatten_steps fuel x = Some y) l parts
                        /\ steps = mjoin parts).
Proof.
  intros Hh. destruct (flatten_steps_total fuel node Hh) as [steps Hs].
  exists steps. split; [done|]. split; [by apply flatten_steps_stripped in Hs|].
  split.
  - intros more. induction more as [|more IH].
    + by rewrite Nat.add_0_r.
    + rewrite Nat.add_succ_r. by apply flatten_steps_more.
  - intros l ->. destruct fuel as [|fuel]; [done|]. cbn [_flatten_steps] in Hs.
    unfold flatten_node in Hs. apply fmap_Some in Hs as (k & Hk & ->). exists k. split; [|done].
    apply mapM_Some_1 in Hk. eapply Forall2_impl; [exact Hk|].
    intros x y. apply flatten_steps_more.
Qed.

End FlattenSteps.

Lemma flatten_steps_result_witness :
  let node :=
    Py.VList [ Py.VStr (Py.lit " Mix. ");
               Py.VDict [ (Py.lit "text", Py.VStr (Py.lit "Bake."));
                          (Py.lit "steps", Py.VList [Py.VStr (Py.lit "  ")]) ] ] in
  (Parser.height node < 4)%nat
  /\ Parser._flatten_steps 4 node = Some [Py.lit "Mix."; Py.lit "Bake."].
Proof.
  intros node.
  assert (Parser.height node < 4)%nat as Hh by (vm_compute; lia).
  split; [exact Hh|].
  destruct (flatten_steps_result node 4 Hh) as (steps & Hs & _).
  rewrite Hs. f_equal. apply (inj Some). rewrite <- Hs. reflexivity.
Defined.

(** ** Recovery files with missing parts *)

Section PartialState.
Context `{PyLib}.
Import Py.

(** A recovery file that has each of its five keys or not. *)
Definition partial_doc (od op oc ofl : option (list str)) (ot : option str) : value :=
  VDict (omap (fun x => x)
           [ (fun l => (lit "discovered", ScrapeState.str_list l)) <$> od;
             (fun l => (lit "pending", ScrapeState.str_list l)) <$> op;
             (fun l => (lit "completed", ScrapeState.str_list l)) <$> oc;
             (fun l => (lit "failed", ScrapeState.str_list l)) <$> ofl;
             (fun t => (lit "last_updated", VStr t)) <$> ot ]).

Lemma set_of_missing :
  ScrapeState.set_of (or_ VNone (VList [])) = Some ∅.
Proof. reflexivity. Qed.

(** X16. A recovery file may lack any of its keys: a set that is missing
    is read as empty, a timestamp that is missing or that does not parse as
    the current time; nothing else of the file is lost. A recovery file that
    is absent, unreadable or not a JSON object leaves the manager's state as
    it was. *)
Theorem load_tolerates_missing_keys cfg now od op oc ofl ot d st :
  (files d !! state_file cfg = Some (FileJson (partial_doc od op oc ofl ot)) ->
   StateManager._load_state cfg now d st
   = ScrapeState.mk (list_to_set (default [] od)) (list_to_set (default [] op))
                    (list_to_set (default [] oc)) (list_to_set (default [] ofl))
                    (ScrapeState.Stamp (default now (ot ≫= fromisoformat))))
  /\ (files d !! state_file cfg = None -> StateManager._load_state cfg now d st = st)
  /\ (files d !! state_file cfg = Some FileGarbage ->
      StateManager._load_state cfg now d st = st)
  /\ (forall v, files d !! state_file cfg = Some (FileJson v) ->
        (forall items, v <> VDict items) ->
        StateManager._load_state cfg now d st = st).
Proof.
  split; [|split; [|split]].
  - intros Hf. unfold StateManager._load_state. rewrite Hf.
    unfold ScrapeState.from_dict, partial_doc.
    destruct od as [ld|], op as [lp|], oc as [lc|], ofl as [lf|], ot as [t|];
      cbn [fmap option_fmap option_map omap list_omap];
      repeat match goal with
             | |- context [ScrapeState.str_list ?l] =>
                 let a := fresh "a" in
                 let Ha := fresh "Ha" in
                 remember (ScrapeState.str_list l) as a eqn:Ha
             end;
      repeat match goal with
             | |- context [get ?doc ?key ?dflt] =>
                 let v := eval vm_compute in (get doc key dflt) in
                 change (get doc key dflt) with v
             end;
      subst; cbn [mbind option_bind default];
      rewrite ?set_of_str_list, ?set_of_missing;
      cbn [mbind option_bind default]; try reflexivity;
      match goal with
      | |- context [fromisoformat ?s] => by destruct (fromisoformat s)
      end.
  - intros Hf. unfold StateManager._load_state. by rewrite Hf.
  - intros Hf. unfold StateManager._load_state. by rewrite Hf.
  - intros v Hf Hv. unfold StateManager._load_state. rewrite Hf.
    destruct v as [| | | | | |items]; try done. by destruct (Hv items).
Qed.

End PartialState.

Lemma load_tolerates_missing_keys_witness :
  let cfg := mkConfig default_state_file SKIP_EXISTING [] 2 10 in
  let doc := partial_doc None (Some [Py.lit "r1"]) None None None in
  let d := mkDisk true {[ default_state_file := FileJson doc ]} in
  files d !! state_file cfg = Some (FileJson doc)
  /\ ScrapeState.pending
       (@StateManager._load_state text_lib cfg epoch d (ScrapeState.empty epoch))
     = list_to_set [Py.lit "r1"].
Proof.
  intros cfg doc d.
  assert (files d !! state_file cfg = Some (FileJson doc)) as Hf
    by apply lookup_singleton_eq.
  split; [exact Hf|].
  rewrite (proj1 (@load_tolerates_missing_keys text_lib cfg epoch None
                    (Some [Py.lit "r1"]) None None None d (ScrapeState.empty epoch)) Hf).
  reflexivity.
Defined.

(** ** The discovery worker and the checkpoints *)

Section Producer.
Context `{PyLib}.
Import Py RecipeScraper.

Lemma discovery_item_spec cfg w p recipe_id :
  let r := discovery_item cfg (w, p) recipe_id in
  disk r.1 = disk w /\ fetches r.1 = fetches w
  /\ ScrapeState.completed (state r.1) = ScrapeState.completed (state w)
  /\ ScrapeState.failed (state r.1) = ScrapeState.failed (state w)
  /\ ScrapeState.discovered (state r.1) = {[recipe_id]} ∪ ScrapeState.discovered (state w)
  /\ stat_downloaded (stats r.1) = stat_downloaded (stats w)
  /\ stat_failures (stats r.1) = stat_failures (stats w)
  /\ stat_discovered (stats r.1)
     = Z.of_nat (size (ScrapeState.discovered (state r.1)))
  /\ ((download_queue r.2 = download_queue p
       /\ ScrapeState.pending (state r.1) = ScrapeState.pending (state w)
       /\ stat_skipped (stats r.1) = stat_skipped (stats w) + 1)
      \/ (download_queue r.2 = download_queue p ++ [recipe_id]
          /\ ScrapeState.pending (state r.1)
             = {[recipe_id]} ∪ ScrapeState.pending (state w)
          /\ stat_skipped (stats r.1) = stat_skipped (stats w))).
Proof.
  unfold discovery_item. cbn zeta.
  destruct (negb (StateManager.should_download cfg _ _ recipe_id)).
  - cbn. repeat split; try done. by left.
  - destruct (_ mod 100 =? 0); cbn; repeat split; try done; by right.
Qed.

(** X17. The discovery worker on the identifiers that [discover_all]
    yields, while no download is in between: it never reads or writes a file
    and never fetches a page; every yielded identifier becomes discovered;
    the queue grows by some of them, in their order, and each identifier
    enqueued is pending and discovered; the others are counted in [skipped];
    [completed] and [failed] are not touched. *)
Theorem discovery_worker_enqueues cfg yields w p :
  let r := foldl (discovery_item cfg) (w, p) yields in
  disk r.1 = disk w /\ fetches r.1 = fetches w
  /\ ScrapeState.completed (state r.1) = ScrapeState.completed (state w)
  /\ ScrapeState.failed (state r.1) = ScrapeState.failed (state w)
  /\ ScrapeState.discovered (state r.1)
     = ScrapeState.discovered (state w) ∪ list_to_set yields
  /\ exists enqueued,
       download_queue r.2 = download_queue p ++ enqueued
       /\ sublist enqueued yields
       /\ ScrapeState.pending (state r.1)
          = ScrapeState.pending (state w) ∪ list_to_set enqueued
       /\ Forall (fun rid => rid ∈ ScrapeState.pending (state r.1)
                             /\ rid ∈ ScrapeState.discovered (state r.1)) enqueued
       /\ stat_skipped (stats r.1) + Z.of_nat (length enqueued)
          = stat_skipped (stats w) + Z.of_nat (length yields).
Proof.
  revert w p. induction yields as [|rid yields IH]; intros w p.
  - cbn [foldl fst snd list_to_set].
    split; [done|]. split; [done|]. split; [done|]. split; [done|].
    split; [set_solver|].
    exists []. rewrite app_nil_r. cbn [list_to_set length].
    split; [done|]. split; [done|]. split; [set_solver|]. split; [constructor|lia].
  - cbn [foldl].
    pose proof (discovery_item_spec cfg w p rid) as Hitem.
    destruct (discovery_item cfg (w, p) rid) as [w1 p1]. cbn [fst snd] in Hitem.
    destruct Hitem as (Hd & Hf & Hc & Hfl & Hdisc & _ & _ & _ & Hq).
    destruct (IH w1 p1) as (Hd' & Hf' & Hc' & Hfl' & Hdisc' & enq & Hq' & Hsub
                            & Hp' & Hall & Hcount).
    cbn zeta. rewrite Hd', Hf', Hc', Hfl', Hdisc', Hd, Hf, Hc, Hfl, Hdisc.
    cbn [list_to_set].
    split; [done|]. split; [done|]. split; [done|]. split; [done|].
    split; [set_solver|].
    destruct Hq as [(Hq & Hp & Hs)|(Hq & Hp & Hs)].
    + exists enq. rewrite Hq', Hq, Hp', Hp. split; [done|].
      split; [by apply sublist_cons|]. split; [done|]. split.
      * eapply Forall_impl; [exact Hall|]. cbn beta. intros x [Hx1 Hx2].
        by rewrite Hp', Hp, Hdisc', Hdisc in *.
      * cbn [length]. lia.
    + exists (rid :: enq). rewrite Hq', Hq, Hp', Hp, <- app_assoc.
      cbn [app list_to_set length]. split; [done|].
      split; [by apply sublist_skip|]. split; [set_solver|]. split.
      * constructor.
        -- split; set_solver.
        -- eapply Forall_impl; [exact Hall|]. cbn beta. intros x [Hx1 Hx2].
           rewrite Hp', Hp, Hdisc', Hdisc in *. split; set_solver.
      * lia.
Qed.


End Producer.


(** ** What a download leaves on disk *)

Section DownloadDisk.
Context `{PyLib}.
Import Py RecipeScraper.



End DownloadDisk.

Lemma record_round_trip_witness :
  let r := RecipeScraper.parse_recipe
             (Recipe.mk Py.VNone Py.VNone Py.VNone Py.VNone Py.VNone Py.VNone
                        (Py.VList []) (Py.VList [Py.VStr (Py.lit "1 egg")])
                        (Py.VList []) (Py.VList []) (Py.VDict []))
             (Py.lit "r1") in
  Recipe.id r = Py.VStr (Py.lit "r1") /\ shaped r
  /\ StateManager.load_recipe
       (@StateManager.save_recipe text_lib r (mkDisk true ∅)) (Py.lit "r1") = Some r.
Proof.
  intros r.
  assert (Recipe.id r = Py.VStr (Py.lit "r1")) as Hid by reflexivity.
  assert (shaped r) as Hs by (repeat split; by eexists).
  split; [exact Hid|]. split; [exact Hs|].
  exact (proj1 (proj2 (proj2
    (@record_round_trip text_lib r (Py.lit "r1") (mkDisk true ∅) Hid))) Hs).
Defined.


Lemma specific_run_all_skipped_witness :
  let r1 := Py.lit "r1" in
  let st := @ScrapeState.mk text_lib {[r1]} ∅ {[r1]} ∅ (ScrapeState.Stamp epoch) in
  let w := RecipeScraper.mkWorld (mkDisk true ∅) st no_stats [] 0 in
  let cfg := mkConfig default_state_file SKIP_EXISTING [Py.lit "1"] 2 10 in
  Forall (fun rid => StateManager.should_download cfg (RecipeScraper.disk w)
                       (RecipeScraper.state w) rid = false)
         (omap (@RecipeScraper._normalize_id text_lib) (recipe_ids cfg))
  /\ RecipeScraper.fetches (RecipeScraper._scrape_specific_recipes cfg flaky_site w)
     = RecipeScraper.fetches w.
Proof.
  intros r1 st w cfg.
  assert (Forall (fun rid => StateManager.should_download cfg (RecipeScraper.disk w)
                               (RecipeScraper.state w) rid = false)
                 (omap (@RecipeScraper._normalize_id text_lib) (recipe_ids cfg))) as Hall.
  { change (omap (@RecipeScraper._normalize_id text_lib) (recipe_ids cfg)) with [r1].
    constructor; [|constructor].
    unfold StateManager.should_download, cfg, w, st.
    cbn [mode RecipeScraper.state ScrapeState.completed].
    rewrite bool_decide_eq_true_2; [done|]. by apply elem_of_singleton. }
  split; [exact Hall|].
  exact (proj1 (proj2 (proj2
    (@specific_run_all_skipped text_lib cfg flaky_site w Hall)))).
Defined.


(** ** parser.py: the tags of a JSON-LD recipe *)

Module Tags.
Import Py.

Section WithLib.
Context `{PyLib} `{PyCase}.

(** [s.strip()] when it is not empty. *)
Definition nonempty_strip (s : str) : option str :=
  match strip s with
  | [] => None
  | txt => Some txt
  end.

(** [[p.strip() for p in s.split(",") if p.strip()]] *)
Definition comma_parts (s : str) : list str :=
  omap nonempty_strip (ConfigEnv.split 44 s).

(** The tags of [keywords = obj.get("keywords")]. *)
Definition keyword_tags (keywords : option value) : list str :=
  match keywords with
  | Some (VStr s) => comma_parts s
  | Some (VList l) => omap (fun t => nonempty_strip (fstring t)) l
  | _ => []
  end.

(** The tags of [obj.get(key)] for a category key. *)
Definition category_tags (obj : list (str * value)) (key : str) : list str :=
  mjoin ((fun t => match t with
                   | VStr s => match strip s with
                               | [] => []
                               | _ => comma_parts s
                               end
                   | _ => []
                   end)
         <$> Parser._ensure_list (default VNone (items_get key obj))).

(** The list [tags] before it is normalised. *)
Definition collected_tags (obj : list (str * value)) : list str :=
  keyword_tags (items_get (lit "keywords") obj)
  ++ category_tags obj (lit "recipeCategory")
  ++ category_tags obj (lit "recipeCuisine").

(** One turn of the last loop, on [(seen, normalized)]. *)
Definition normalize_tag (acc : gset str * list str) (t : str)
    : gset str * list str :=
  match lower t with
  | [] => acc
  | lo => if bool_decide (lo ∈ acc.1) then acc
          else ({[lo]} ∪ acc.1, acc.2 ++ [lo])
  end.

(** [_extract_tags(obj)] *)
Definition _extract_tags (obj : list (str * value)) : list str :=
  (foldl normalize_tag (∅, []) (collected_tags obj)).2.

End WithLib.
End Tags.

Section ExtractTags.
Context `{PyLib} `{PyCase}.
Import Py Tags.

Lemma nonempty_strip_Some s x :
  nonempty_strip s = Some x -> stripped x /\ x <> [].
Proof.
  unfold nonempty_strip. destruct (strip s) as [|c t] eqn:Hs; [done|].
  intros [= <-]. split; [|done]. rewrite <- Hs. apply stripped_strip.
Qed.

Lemma comma_parts_stripped s :
  Forall (fun t => stripped t /\ t <> []) (comma_parts s).
Proof.
  apply Forall_forall. intros x Hx. unfold comma_parts in Hx.
  apply list_elem_of_omap in Hx as (p & _ & Hp). by apply nonempty_strip_Some in Hp.
Qed.

Lemma category_tags_stripped obj key :
  Forall (fun t => stripped t /\ t <> []) (category_tags obj key).
Proof.
  unfold category_tags. apply Forall_join, Forall_fmap, Forall_forall.
  intros t _. cbn. destruct t; try by constructor.
  destruct (strip _); [by constructor|apply comma_parts_stripped].
Qed.

Lemma collected_tags_stripped obj :
  Forall (fun t => stripped t /\ t <> []) (collected_tags obj).
Proof.
  unfold collected_tags. repeat apply Forall_app_2;
    try apply category_tags_stripped.
  unfold keyword_tags. destruct (items_get _ obj) as [[]|]; try by constructor.
  - apply comma_parts_stripped.
  - apply Forall_forall. intros x Hx.
    apply list_elem_of_omap in Hx as (p & _ & Hp). by apply nonempty_strip_Some in Hp.
Qed.

Lemma normalize_tag_spec acc t :
  deduplicated acc -> [] ∉ acc.2 ->
  let acc' := normalize_tag acc t in
  deduplicated acc' /\ ([] ∉ acc'.2)
  /\ (lower t <> [] -> lower t ∈ acc'.2)
  /\ (exists new, acc'.2 = acc.2 ++ new /\ sublist new [lower t]).
Proof.
  intros [Hnd Hseen] Hne. unfold normalize_tag.
  destruct (lower t) as [|c lo] eqn:Hlo.
  - cbn zeta. split; [done|]. split; [done|]. split; [done|].
    exists []. split; [by rewrite app_nil_r|]. apply sublist_nil_l.
  - destruct (bool_decide (c :: lo ∈ acc.1)) eqn:Hin.
    + apply bool_decide_eq_true in Hin. cbn zeta. split; [done|]. split; [done|].
      split; [intros _; by apply Hseen|].
      exists []. split; [by rewrite app_nil_r|]. apply sublist_nil_l.
    + apply bool_decide_eq_false in Hin. unfold deduplicated. cbn [fst snd].
      split; [split|split; [|split]].
      * apply NoDup_app. split; [done|]. split; [|apply NoDup_singleton].
        intros x Hx Hx'. apply list_elem_of_singleton in Hx' as ->.
        by apply Hin, Hseen.
      * intros x. rewrite elem_of_union, elem_of_singleton, elem_of_app,
          list_elem_of_singleton, Hseen. tauto.
      * intros Hx. apply elem_of_app in Hx as [Hx|Hx]; [done|].
        by apply list_elem_of_singleton in Hx.
      * intros _. apply elem_of_app. right. by left.
      * by exists [c :: lo].
Qed.

Lemma foldl_normalize_spec tags acc :
  deduplicated acc -> [] ∉ acc.2 ->
  let acc' := foldl normalize_tag acc tags in
  deduplicated acc' /\ ([] ∉ acc'.2)
  /\ (forall t, t ∈ tags -> lower t <> [] -> lower t ∈ acc'.2)
  /\ (exists new, acc'.2 = acc.2 ++ new /\ sublist new (lower <$> tags)).
Proof.
  revert acc. induction tags as [|t tags IH]; intros acc Hacc Hne.
  - cbn [foldl]. split; [done|]. split; [done|]. split.
    + intros t Ht. by apply elem_of_nil in Ht.
    + exists []. split; [by rewrite app_nil_r|]. apply sublist_nil_l.
  - cbn [foldl].
    destruct (normalize_tag_spec acc t Hacc Hne) as (Hd & Hne1 & Hin & new1 & Hout1 & Hnew1).
    destruct (IH _ Hd Hne1) as (Hd' & Hne' & Hall & new2 & Hout2 & Hnew2).
    cbn zeta. split; [done|]. split; [done|]. split.
    + intros x Hx Hlo. apply elem_of_cons in Hx as [->|Hx]; [|by apply Hall].
      rewrite Hout2. apply elem_of_app. left. by apply Hin.
    + exists (new1 ++ new2). rewrite Hout2, Hout1, app_assoc. split; [done|].
      rewrite fmap_cons. change (lower t :: (lower <$> tags))
        with ([lower t] ++ (lower <$> tags)).
      by apply sublist_app.
Qed.

(** X20. The tags of a JSON-LD recipe: every collected tag is stripped and
    not empty; the result holds the lower-case forms of the collected tags,
    each once, none empty, in the order of their first occurrence, and one for
    every collected tag whose lower-case form is not empty. *)
Theorem extract_tags_result obj :
  Forall (fun t => stripped t /\ t <> []) (collected_tags obj)
  /\ NoDup (_extract_tags obj)
  /\ ([] ∉ _extract_tags obj)
  /\ sublist (_extract_tags obj) (lower <$> collected_tags obj)
  /\ (forall t, t ∈ collected_tags obj -> lower t <> [] ->
        lower t ∈ _extract_tags obj).
Proof.
  split; [apply collected_tags_stripped|].
  destruct (foldl_normalize_spec (collected_tags obj) (∅, []))
    as ([Hnd _] & Hne & Hall & new & Hout & Hnew).
  { split; [apply NoDup_nil_2|]. intros x. cbn [fst snd]. set_solver. }
  { cbn [snd]. apply not_elem_of_nil. }
  unfold _extract_tags. split; [done|]. split; [done|]. split; [|done].
  by rewrite Hout.
Qed.

End ExtractTags.
